(** * pkg/pubsub/stan: the STAN/NATS pub/sub backend

    A shallow embedding of [src/pkg/pubsub/stan/stan.go] and the properties
    of its routing, publishing, acknowledgement and close paths.

    Go strings are byte strings: they are modelled as [string] (a list of
    8-bit [ascii] characters); a byte slice is a [list byte]. The two
    transport client libraries (go-nats, go-nats-streaming) and the protobuf
    codec are outside the package: their answers are taken as parameters,
    and every call made to them is recorded, in order, in the world's
    trace. *)

From Stdlib Require Import Bool List NArith ZArith Lia.
From Stdlib.Strings Require Import String Ascii Byte.
Import ListNotations.
Local Open Scope string_scope.
Local Open Scope list_scope.

Set Implicit Arguments.

(** * Part I: the program *)

(** ** Go's [regexp], as far as [Pull] uses it *)

Module Regexp.

(** The syntax needed for the two patterns compiled by [Pull]; [Void] and
    [Alt] only arise as derivatives. *)
Inductive regex : Type :=
| Void : regex
| Eps : regex
| Lit : ascii -> regex
| AnyNotNL : regex
| Cat : regex -> regex -> regex
| Alt : regex -> regex -> regex
| Star : regex -> regex.

Definition newline : ascii := ascii_of_nat 10.

(** The language of a pattern. A dot matches any character but a newline
    (no [s] flag is set). A newline is the single byte 10 in UTF-8 and
    never part of a longer sequence, so matching bytes and matching runes
    agree for these patterns. *)
Inductive matches : regex -> string -> Prop :=
| m_eps : matches Eps ""
| m_lit : forall c, matches (Lit c) (String c "")
| m_any : forall c, c <> newline -> matches AnyNotNL (String c "")
| m_cat : forall r1 r2 s1 s2,
    matches r1 s1 -> matches r2 s2 -> matches (Cat r1 r2) (s1 ++ s2)%string
| m_alt_l : forall r1 r2 s, matches r1 s -> matches (Alt r1 r2) s
| m_alt_r : forall r1 r2 s, matches r2 s -> matches (Alt r1 r2) s
| m_star_nil : forall r, matches (Star r) ""
| m_star_cons : forall r c s1 s2,
    matches r (String c s1) -> matches (Star r) s2 ->
    matches (Star r) (String c s1 ++ s2)%string.

Fixpoint nullable (r : regex) : bool :=
  match r with
  | Void => false
  | Eps => true
  | Lit _ => false
  | AnyNotNL => false
  | Cat r1 r2 => nullable r1 && nullable r2
  | Alt r1 r2 => nullable r1 || nullable r2
  | Star _ => true
  end.

Fixpoint deriv (c : ascii) (r : regex) : regex :=
  match r with
  | Void => Void
  | Eps => Void
  | Lit d => if Ascii.eqb c d then Eps else Void
  | AnyNotNL => if Ascii.eqb c newline then Void else Eps
  | Cat r1 r2 =>
      if nullable r1 then Alt (Cat (deriv c r1) r2) (deriv c r2)
      else Cat (deriv c r1) r2
  | Alt r1 r2 => Alt (deriv c r1) (deriv c r2)
  | Star r1 => Cat (deriv c r1) (Star r1)
  end.

(** Does some prefix of [s] belong to the pattern? *)
Fixpoint match_here (r : regex) (s : string) : bool :=
  nullable r ||
  match s with
  | EmptyString => false
  | String c s' => match_here (deriv c r) s'
  end.

(** [MatchString] of a compiled [Regexp]: the pattern is searched for
    anywhere in the text; nothing anchors it to the start or to the end. *)
Fixpoint MatchString (r : regex) (s : string) : bool :=
  match_here r s ||
  match s with
  | EmptyString => false
  | String _ s' => MatchString r s'
  end.

(** A literal word as a pattern. *)
Fixpoint word (w : string) : regex :=
  match w with
  | EmptyString => Eps
  | String c w' => Cat (Lit c) (word w')
  end.

End Regexp.

(** ** Data *)

Definition bytes : Type := list byte.

(** Go [error] values. [errorString] is what [errors.New] and [fmt.Errorf]
    build in this package; [libraryError] is an error handed back by one of
    the libraries. *)
Inductive error : Type :=
| errorString (text : string)
| libraryError (text : string).

Definition Error (e : error) : string :=
  match e with
  | errorString text => text
  | libraryError text => text
  end.

(** A Go [(value, error)] pair of which exactly one side is meaningful. *)
Inductive result (A : Type) : Type :=
| Ok (a : A)
| Err (e : error).
Arguments Ok {A} a.
Arguments Err {A} e.

Definition ErrInvalidMessageType (err : string) : error :=
  errorString ("invalid message type " ++ err)%string.

Definition ErrNoSubscriptionFound : error :=
  errorString "no subscription found".

(** [pubsub.Ack]: the ack token before serialization. [Sequence] is a
    [uint64]. *)
Record pubsub_Ack : Type := {
  Inbox : string;
  Subject : string;
  Sequence : N
}.

(** [npb.Ack]: the ack record of the streaming protocol. *)
Record npb_Ack : Type := {
  npb_Subject : string;
  npb_Sequence : N
}.

(** [pubsub.ReceivedMessage]. A nil [Ack] slice is the empty list. *)
Record ReceivedMessage : Type := {
  Payload : bytes;
  Ack : bytes
}.

(** A live [stan.Subscription]; [ackInbox] is the private field that the
    message callback reads through [reflect]. *)
Record stan_Subscription : Type := {
  stan_id : nat;
  ackInbox : string
}.

Record nats_Subscription : Type := {
  nats_id : nat
}.

(** [stan.Msg], the fields of it that the callback reads. *)
Record stan_Msg : Type := {
  msg_Sequence : N;
  msg_Subject : string;
  msg_Data : bytes;
  msg_Sub : stan_Subscription
}.

Record nats_Msg : Type := {
  nats_Subject : string;
  nats_Data : bytes
}.

Inductive stan_SubscriptionOption : Type :=
| stan_DeliverAllAvailable
| stan_SetManualAckMode
| stan_AckWait (d : Z).

(** The package-level [config] struct, filled from the environment by
    [Connect]. *)
Record config_t : Type := {
  ClusterName : string;
  NatsURL : string;
  AckWait : Z
}.

Definition default_config : config_t :=
  {| ClusterName := "c8-backplane";
     NatsURL := "nats://localhost:4222";
     AckWait := 1 |}.

(** [time.Duration] is an [int64] count of nanoseconds. *)
Definition int64 (z : Z) : Z := ((z + 2 ^ 63) mod 2 ^ 64 - 2 ^ 63)%Z.
Definition time_Second : Z := 1000000000%Z.

(** Channels are identified by the order in which [make] created them. *)
Definition chan : Type := nat.

(** What a callback run by a transport does: it writes to standard error
    and sends on a channel. *)
Inductive effect : Type :=
| Fprintf_Stderr (text : string)
| chan_send (c : chan) (m : ReceivedMessage).

(** A Go closure over one captured string variable: the variable's current
    value, and the body as a function from that value and the argument to
    the new value and the effects. *)
Record closure (A : Type) : Type := {
  captured : string;
  body : string -> A -> string * list effect
}.

(** [stan.AckHandler]. *)
Definition AckHandler : Type := string -> option error -> list effect.

(** The calls the package makes on the outside world, as recorded in the
    trace. *)
Inductive event : Type :=
| os_Stderr (text : string)
| natsConn_Publish (subj : string) (data : bytes)
| stanConn_PublishAsync (subj : string) (data : bytes) (ah : AckHandler)
| natsConn_Subscribe (subj : string) (cb : nats_Msg -> list effect)
| stanConn_Subscribe (subj : string) (cb : closure stan_Msg)
    (opts : list stan_SubscriptionOption)
| stanSub_Close (s : stan_Subscription)
| stanSub_Unsubscribe (s : stan_Subscription)
| natsSub_Unsubscribe (s : nats_Subscription).

Record world : Type := {
  trace : list event;
  chans : nat
}.

Definition nl : string := String Regexp.newline "".
(** ** The ack token's serialization

    The generated code of [pubsub.Ack] (pkg/api/pubsub) is not among the
    sources. The spec has the token as an opaque serialized structure
    carrying the ack address, the subject topic and the sequence number;
    the call sites use the protobuf codec, so the token is taken to be the
    proto3 wire form of a message with the string fields [Inbox] = 1 and
    [Subject] = 2 and the [uint64] field [Sequence] = 3. *)
Module Wire.
Local Open Scope N_scope.

(** A base-128 varint, least significant group first, the top bit of a
    byte saying that more follow. A [uint64] takes at most ten bytes. *)

Definition byte_of_N (n : N) : byte :=
  match Byte.of_N (n mod 256) with Some b => b | None => x00 end.

Fixpoint EncodeVarint_fuel (fuel : nat) (x : N) : bytes :=
  match fuel with
  | O => []
  | S fuel' =>
      if x <? 128 then [byte_of_N x]
      else byte_of_N (128 + x mod 128) :: EncodeVarint_fuel fuel' (x / 128)
  end.

Definition EncodeVarint (x : N) : bytes := EncodeVarint_fuel 10 x.

Fixpoint DecodeVarint_fuel (fuel : nat) (buf : bytes) : option (N * bytes) :=
  match fuel, buf with
  | S fuel', b :: buf' =>
      let v := Byte.to_N b in
      if v <? 128 then Some (v, buf')
      else match DecodeVarint_fuel fuel' buf' with
           | Some (hi, rest) => Some ((v - 128) + 128 * hi, rest)
           | None => None
           end
  | _, _ => None
  end.

Definition DecodeVarint (buf : bytes) : option (N * bytes) :=
  match DecodeVarint_fuel 10 buf with
  | Some (x, rest) => Some (x mod 2 ^ 64, rest)
  | None => None
  end.

Definition WireVarint : N := 0.
Definition WireFixed64 : N := 1.
Definition WireBytes : N := 2.
Definition WireFixed32 : N := 5.

Definition tag (field wire : N) : N := field * 8 + wire.

Definition EncodeStringBytes (s : string) : bytes :=
  EncodeVarint (N.of_nat (String.length s)) ++ list_byte_of_string s.

Definition field_string (num : N) (s : string) : bytes :=
  if String.eqb s "" then []
  else EncodeVarint (tag num WireBytes) ++ EncodeStringBytes s.

Definition field_uint64 (num : N) (x : N) : bytes :=
  if x =? 0 then []
  else EncodeVarint (tag num WireVarint) ++ EncodeVarint x.

(** Modelled from the spec: the serialization of an ack token, missing
    with the generated code of [pubsub.Ack]. The fields go out in number
    order, each as a varint key followed by the value; a field that holds
    its zero value is left out. *)
Definition Marshal (a : pubsub_Ack) : bytes :=
  field_string 1 (Inbox a) ++ field_string 2 (Subject a)
    ++ field_uint64 3 (Sequence a).

Definition take (n : N) (buf : bytes) : option (bytes * bytes) :=
  if N.of_nat (List.length buf) <? n then None
  else Some (firstn (N.to_nat n) buf, skipn (N.to_nat n) buf).

Definition DecodeRawBytes (buf : bytes) : option (bytes * bytes) :=
  match DecodeVarint buf with
  | Some (n, rest) => take n rest
  | None => None
  end.

Definition skipField (wire : N) (buf : bytes) : option bytes :=
  if wire =? WireVarint then option_map snd (DecodeVarint buf)
  else if wire =? WireFixed64 then option_map snd (take 8 buf)
  else if wire =? WireBytes then option_map snd (DecodeRawBytes buf)
  else if wire =? WireFixed32 then option_map snd (take 4 buf)
  else None.

Definition unmarshalField (a : pubsub_Ack) (buf : bytes)
  : option (pubsub_Ack * bytes) :=
  match DecodeVarint buf with
  | None => None
  | Some (t, rest) =>
      let field := t / 8 in
      let wire := t mod 8 in
      if field =? 0 then None
      else if field =? 1 then
        if wire =? WireBytes then
          match DecodeRawBytes rest with
          | Some (b, r) =>
              Some ({| Inbox := string_of_list_byte b;
                       Subject := Subject a;
                       Sequence := Sequence a |}, r)
          | None => None
          end
        else None
      else if field =? 2 then
        if wire =? WireBytes then
          match DecodeRawBytes rest with
          | Some (b, r) =>
              Some ({| Inbox := Inbox a;
                       Subject := string_of_list_byte b;
                       Sequence := Sequence a |}, r)
          | None => None
          end
        else None
      else if field =? 3 then
        if wire =? WireVarint then
          match DecodeVarint rest with
          | Some (x, r) =>
              Some ({| Inbox := Inbox a; Subject := Subject a;
                       Sequence := x |}, r)
          | None => None
          end
        else None
      else
        match skipField wire rest with
        | Some r => Some (a, r)
        | None => None
        end
  end.

Fixpoint unmarshalLoop (fuel : nat) (a : pubsub_Ack) (buf : bytes)
  : option pubsub_Ack :=
  match buf with
  | [] => Some a
  | _ :: _ =>
      match fuel with
      | O => None
      | S fuel' =>
          match unmarshalField a buf with
          | Some (a', rest) => unmarshalLoop fuel' a' rest
          | None => None
          end
      end
  end.

Definition zero : pubsub_Ack := {| Inbox := ""; Subject := ""; Sequence := 0 |}.

(** [Unmarshal] into a message that already holds [a]. *)
Definition Unmarshal_from (a : pubsub_Ack) (buf : bytes) : option pubsub_Ack :=
  unmarshalLoop (List.length buf) a buf.

(** Modelled from the spec: the decoding of an ack token, missing with
    the generated code of [pubsub.Ack]. The message is reset, then read
    field after field until the buffer is used up; a field with an unknown
    number is skipped, a malformed one fails the call. *)
Definition Unmarshal (buf : bytes) : option pubsub_Ack :=
  Unmarshal_from zero buf.

(** The codec with the shape of the library calls. *)
Definition proto_Marshal (a : pubsub_Ack) : result bytes := Ok (Marshal a).

Definition proto_Unmarshal (buf : bytes) : result pubsub_Ack :=
  match Unmarshal buf with
  | Some a => Ok a
  | None => Err (libraryError "proto: cannot parse invalid wire-format data")
  end.

(** The streaming protocol's ack record has the same wire form, with
    [Subject] = 1 and [Sequence] = 2. *)
Definition npb_Marshal (a : npb_Ack) : result bytes :=
  Ok (field_string 1 (npb_Subject a) ++ field_uint64 2 (npb_Sequence a)).

End Wire.
(** ** The state of the outside world, threaded through every call *)

Definition M (A : Type) : Type := world -> A * world.

Definition ret {A : Type} (a : A) : M A := fun w => (a, w).

Definition bind {A B : Type} (m : M A) (k : A -> M B) : M B :=
  fun w => let (a, w') := m w in k a w'.

Notation "x <- m ;; k" := (bind m (fun x => k))
  (at level 61, m at next level, right associativity).
Notation "m ;;; k" := (bind m (fun _ => k))
  (at level 61, right associativity).

Definition record (e : event) : M unit :=
  fun w => (tt, {| trace := trace w ++ [e]; chans := chans w |}).

Definition history : M (list event) := fun w => (trace w, w).

(** [make(chan *pubsub.ReceivedMessage)] *)
Definition make_chan : M chan :=
  fun w => (chans w, {| trace := trace w; chans := S (chans w) |}).

(** ** The backend *)

Section Backend.

(** The two structured payload types, declared in pkg/api; a value stands
    for the pointer that [Publish] is handed. *)
Variables event_SignedSubscription pbconfig_Config : Type.

(** The dynamic type of the [message] argument of [Publish]. [other]
    stands for every type outside the three cases of the switch, the nil
    interface included; it carries what [%v] prints for its
    [reflect.TypeOf]. *)
Inductive message : Type :=
| SignedSubscription_ptr (payload : event_SignedSubscription)
| Config_ptr (payload : pbconfig_Config)
| byte_slice (b : bytes)
| other (typeName : string).

(** What the libraries answer. The transports' answers may depend on
    everything that was done before the call. [proto.Marshal] hands back
    a buffer and an error. [Publish] and [Acknowledge] leave as soon as
    the error is not nil and never look at the buffer then, so for them
    the answer is one or the other; the STAN callback goes on with the
    buffer whatever the error is, so for the ack both are kept. *)
Record Library : Type := {
  proto_Marshal_SignedSubscription : event_SignedSubscription -> result bytes;
  proto_Marshal_Config : pbconfig_Config -> result bytes;
  proto_Marshal_Ack : pubsub_Ack -> bytes * option error;
  proto_Unmarshal_Ack : bytes -> result pubsub_Ack;
  npb_Ack_Marshal : npb_Ack -> result bytes;
  nats_Publish_returns : list event -> string -> bytes -> option error;
  stan_PublishAsync_returns :
    list event -> string -> bytes -> string * option error;
  nats_Subscribe_returns : list event -> string -> result nats_Subscription;
  stan_Subscribe_returns :
    list event -> string -> list stan_SubscriptionOption ->
    result stan_Subscription;
  stan_Close_returns : list event -> stan_Subscription -> option error;
  nats_Unsubscribe_returns : list event -> nats_Subscription -> option error
}.

Variable lib : Library.
Variable config : config_t.

(** *** Calls on the two connections *)

Definition call_natsConn_Publish (subj : string) (data : bytes)
  : M (option error) :=
  h <- history ;;
  record (natsConn_Publish subj data) ;;;
  ret (nats_Publish_returns lib h subj data).

Definition call_stanConn_PublishAsync (subj : string) (data : bytes)
    (ah : AckHandler) : M (string * option error) :=
  h <- history ;;
  record (stanConn_PublishAsync subj data ah) ;;;
  ret (stan_PublishAsync_returns lib h subj data).

Definition call_natsConn_Subscribe (subj : string)
    (cb : nats_Msg -> list effect) : M (result nats_Subscription) :=
  h <- history ;;
  record (natsConn_Subscribe subj cb) ;;;
  ret (nats_Subscribe_returns lib h subj).

Definition call_stanConn_Subscribe (subj : string) (cb : closure stan_Msg)
    (opts : list stan_SubscriptionOption) : M (result stan_Subscription) :=
  h <- history ;;
  record (stanConn_Subscribe subj cb opts) ;;;
  ret (stan_Subscribe_returns lib h subj opts).

Definition Fprintf_os_Stderr (text : string) : M unit :=
  record (os_Stderr text).

(** *** Publish *)

(** [func(_ string, _ error) {}] *)
Definition no_AckHandler : AckHandler := fun _ _ => [].

Definition Publish (topic : string) (msg : message) : M (option error) :=
  match msg with
  | SignedSubscription_ptr payload =>
      match proto_Marshal_SignedSubscription lib payload with
      | Err err => ret (Some err)
      | Ok b =>
          err <- call_natsConn_Publish topic b ;;
          match err with
          | Some e => ret (Some e)
          | None => ret None
          end
      end
  | Config_ptr payload =>
      match proto_Marshal_Config lib payload with
      | Err err => ret (Some err)
      | Ok b =>
          r <- call_stanConn_PublishAsync topic b no_AckHandler ;;
          match snd r with
          | Some e => ret (Some e)
          | None => ret None
          end
      end
  | byte_slice b =>
      r <- call_stanConn_PublishAsync topic b no_AckHandler ;;
      match snd r with
      | Some e => ret (Some e)
      | None => ret None
      end
  | other typeName => ret (Some (ErrInvalidMessageType typeName))
  end.

(** *** Subscriptions *)

(** The callback handed to [natsConn.Subscribe]. *)
Definition natsCallback (messages : chan) (m : nats_Msg) : list effect :=
  [chan_send messages {| Payload := nats_Data m; Ack := [] |}].

Definition natsSubscribe (topic : string) (messages : chan)
  : M (result nats_Subscription) :=
  r <- call_natsConn_Subscribe topic (natsCallback messages) ;;
  match r with
  | Err err => ret (Err err)
  | Ok sub => ret (Ok sub)
  end.

(** The ack address the callback uses: the cached one, read off the
    subscription while the cache is still empty. *)
Definition resolve_ackInbox (cached : string) (m : stan_Msg) : string :=
  if String.eqb cached "" then ackInbox (msg_Sub m) else cached.

Definition ack_for (cached : string) (m : stan_Msg) : pubsub_Ack :=
  {| Inbox := resolve_ackInbox cached m;
     Subject := msg_Subject m;
     Sequence := msg_Sequence m |}.

(** The body of the callback handed to [stanConn.Subscribe]; the captured
    variable is [ackInbox]. An error of [proto.Marshal] is written to
    standard error and nothing else: the message is sent with the buffer
    that [proto.Marshal] handed back. *)
Definition stanCallback (messages : chan) (cached : string) (m : stan_Msg)
  : string * list effect :=
  let ack := ack_for cached m in
  let (ackBytes, err) := proto_Marshal_Ack lib ack in
  let sent := chan_send messages {| Payload := msg_Data m; Ack := ackBytes |} in
  match err with
  | Some e =>
      (Inbox ack,
       [Fprintf_Stderr
          ("Failed to convert ack bytes: " ++ Error e ++ nl)%string;
        sent])
  | None => (Inbox ack, [sent])
  end.

Definition stanSubscribe (topic : string) (messages : chan)
    (options : list stan_SubscriptionOption) : M (result stan_Subscription) :=
  let options :=
    options ++ [stan_SetManualAckMode;
                stan_AckWait (int64 (int64 (AckWait config) * time_Second))] in
  r <- call_stanConn_Subscribe topic
         {| captured := ""; body := stanCallback messages |} options ;;
  match r with
  | Err err => ret (Err err)
  | Ok stanSub => ret (Ok stanSub)
  end.

(** The [subscription] struct; a nil field is [None]. *)
Record subscription : Type := {
  stanSub : option stan_Subscription;
  natsSub : option nats_Subscription
}.

(** [regexp.MustCompile] of the two patterns, [config\..*] and
    [subscription\..*]. *)
Definition maybeConfig : Regexp.regex :=
  Regexp.Cat (Regexp.word "config.") (Regexp.Star Regexp.AnyNotNL).

Definition maybeSubscription : Regexp.regex :=
  Regexp.Cat (Regexp.word "subscription.") (Regexp.Star Regexp.AnyNotNL).

(** [Pull] hands back the address of a fresh [subscription] as a
    [backend.Subscription] interface value ([None] would be the nil
    interface), the channel, and the error. *)
Definition Pull (topic : string)
  : M (option subscription * chan * option error) :=
  messages <- make_chan ;;
  let sub := {| stanSub := None; natsSub := None |} in
  if Regexp.MatchString maybeConfig topic then
    r <- stanSubscribe topic messages [stan_DeliverAllAvailable] ;;
    match r with
    | Err err => ret (Some sub, messages, Some err)
    | Ok s =>
        ret (Some {| stanSub := Some s; natsSub := natsSub sub |},
             messages, None)
    end
  else if Regexp.MatchString maybeSubscription topic then
    r <- natsSubscribe topic messages ;;
    match r with
    | Err err => ret (Some sub, messages, Some err)
    | Ok s =>
        ret (Some {| stanSub := stanSub sub; natsSub := Some s |},
             messages, None)
    end
  else
    r <- stanSubscribe topic messages [] ;;
    match r with
    | Err err => ret (Some sub, messages, Some err)
    | Ok s =>
        ret (Some {| stanSub := Some s; natsSub := natsSub sub |},
             messages, None)
    end.

(** *** Acknowledge *)

Definition unable_to_marshal (err : error) : string :=
  ("Unable to marshal ack: " ++ Error err ++ nl)%string.

Definition unable_to_publish (err : error) : string :=
  ("Unable to publish ack: " ++ Error err ++ nl)%string.

(** The [ackLoop] loop, with [failedAcks] as it stands on entry. *)
Fixpoint ackLoop (acks : list bytes) (failedAcks : list bytes)
  : M (list bytes) :=
  match acks with
  | [] => ret failedAcks
  | ackBytes :: acks' =>
      match proto_Unmarshal_Ack lib ackBytes with
      | Err err =>
          Fprintf_os_Stderr (unable_to_marshal err) ;;;
          ackLoop acks' (failedAcks ++ [ackBytes])
      | Ok ack =>
          let pback := {| npb_Subject := Subject ack;
                          npb_Sequence := Sequence ack |} in
          match npb_Ack_Marshal lib pback with
          | Err err =>
              Fprintf_os_Stderr (unable_to_marshal err) ;;;
              ackLoop acks' failedAcks
          | Ok b =>
              err <- call_natsConn_Publish (Inbox ack) b ;;
              match err with
              | Some e =>
                  Fprintf_os_Stderr (unable_to_publish e) ;;;
                  ackLoop acks' (failedAcks ++ [ackBytes])
              | None => ackLoop acks' failedAcks
              end
          end
      end
  end.

Definition Acknowledge (acks : list bytes)
  : M (list bytes * option error) :=
  failedAcks <- ackLoop acks [] ;;
  ret (failedAcks, None).

(** *** Close *)

Definition Close (s : subscription) : M (option error) :=
  match stanSub s with
  | Some sub =>
      h <- history ;;
      record (stanSub_Close sub) ;;;
      ret (stan_Close_returns lib h sub)
  | None =>
      match natsSub s with
      | Some sub =>
          h <- history ;;
          record (natsSub_Unsubscribe sub) ;;;
          ret (nats_Unsubscribe_returns lib h sub)
      | None => ret (Some ErrNoSubscriptionFound)
      end
  end.

(** *** Delivery

    What a transport does with a registered callback: it runs it once
    per message, in order. *)

Fixpoint deliver {A : Type} (f : string -> A -> string * list effect)
    (cached : string) (ms : list A) : string * list effect :=
  match ms with
  | [] => (cached, [])
  | m :: ms' =>
      let (cached', es) := f cached m in
      let (final, es') := deliver f cached' ms' in
      (final, es ++ es')
  end.

Definition run_closure {A : Type} (cl : closure A) (ms : list A)
  : list effect :=
  snd (deliver (body cl) (captured cl) ms).

(** The messages sent on a channel, in order. *)
Fixpoint received (c : chan) (es : list effect) : list ReceivedMessage :=
  match es with
  | [] => []
  | chan_send c' m :: es' =>
      if Nat.eqb c c' then m :: received c es' else received c es'
  | Fprintf_Stderr _ :: es' => received c es'
  end.

(** The stream read off the channel of a durable, resp. broadcast,
    subscription to which the transport delivers [ms]. *)
Definition stan_stream (messages : chan) (ms : list stan_Msg)
  : list ReceivedMessage :=
  received messages
    (run_closure {| captured := ""; body := stanCallback messages |} ms).

Definition nats_stream (messages : chan) (ms : list nats_Msg)
  : list ReceivedMessage :=
  received messages (flat_map (natsCallback messages) ms).

End Backend.

Arguments other {event_SignedSubscription pbconfig_Config} typeName.
Arguments byte_slice {event_SignedSubscription pbconfig_Config} b.

(** ** Vocabulary of the properties *)

Definition add_events (w : world) (es : list event) : world :=
  {| trace := trace w ++ es; chans := chans w |}.

Section Vocabulary.

Variables event_SignedSubscription pbconfig_Config : Type.
Variable lib : Library event_SignedSubscription pbconfig_Config.

(** A token that [proto.Unmarshal] rejects. *)
Definition undecodable (ackBytes : bytes) : bool :=
  match proto_Unmarshal_Ack lib ackBytes with
  | Err _ => true
  | Ok _ => false
  end.

(** What the processing of one token starts with: the log line of a
    failed decoding or re-encoding, or the publish of the ack record. *)
Definition first_event (ackBytes : bytes) : event :=
  match proto_Unmarshal_Ack lib ackBytes with
  | Err err => os_Stderr (unable_to_marshal err)
  | Ok ack =>
      match npb_Ack_Marshal lib {| npb_Subject := Subject ack;
                                   npb_Sequence := Sequence ack |} with
      | Err err => os_Stderr (unable_to_marshal err)
      | Ok b => natsConn_Publish (Inbox ack) b
      end
  end.

(** The token the callback attaches: the buffer that [proto.Marshal]
    handed back for the ack, with or without an error. *)
Definition token_for (cached : string) (m : stan_Msg) : bytes :=
  fst (proto_Marshal_Ack lib (ack_for cached m)).

(** A recorded subscribe call that the transport answered with the error
    [e], in the world [w] in which it was made. *)
Definition subscribe_failed (w : world) (ev : event) (e : error) : Prop :=
  match ev with
  | stanConn_Subscribe subj _ opts =>
      stan_Subscribe_returns lib (trace w) subj opts = Err e
  | natsConn_Subscribe subj _ =>
      nats_Subscribe_returns lib (trace w) subj = Err e
  | _ => False
  end.

(** Every ack record of the batch that gets as far as being published
    is accepted by the NATS connection, whatever happened before. *)
Definition publishes_accepted (acks : list bytes) : Prop :=
  forall ackBytes ack b h,
    In ackBytes acks ->
    proto_Unmarshal_Ack lib ackBytes = Ok ack ->
    npb_Ack_Marshal lib {| npb_Subject := Subject ack;
                           npb_Sequence := Sequence ack |} = Ok b ->
    nats_Publish_returns lib h (Inbox ack) b = None.

Definition failedAcks_of (acks : list bytes) (w : world) : list bytes :=
  fst (fst (Acknowledge lib acks w)).

Definition world_after (acks : list bytes) (w : world) : world :=
  snd (Acknowledge lib acks w).

End Vocabulary.

(** The ack inbox in use after the messages [ms] of a subscription: the
    first one among them that is not empty, if any. *)
Fixpoint first_inbox (ms : list stan_Msg) : string :=
  match ms with
  | [] => ""
  | m :: ms' =>
      if String.eqb (ackInbox (msg_Sub m)) "" then first_inbox ms'
      else ackInbox (msg_Sub m)
  end.

(** The ack that goes with the message [m] when [before] came before it
    on the same subscription. *)
Definition ack_of (before : list stan_Msg) (m : stan_Msg) : pubsub_Ack :=
  {| Inbox := first_inbox (before ++ [m]);
     Subject := msg_Subject m;
     Sequence := msg_Sequence m |}.

(** [proto.Marshal] on an ack with the wire codec: it always succeeds. *)
Definition wire_Marshal_Ack (a : pubsub_Ack) : bytes * option error :=
  (Wire.Marshal a, None).

(** ** Concrete libraries

    The structured payloads are booleans here: [true] is a message that
    serializes, [false] the nil pointer, which [proto.Marshal] refuses. *)

Definition demo_sub : stan_Subscription :=
  {| stan_id := 0; ackInbox := "_INBOX.demo" |}.

Definition marshal_bool (p : bool) : result bytes :=
  if p then Ok [x0a; x00] else Err (libraryError "proto: Marshal called with nil").

(** Every call on a transport succeeds; tokens use the wire codec. *)
Definition accepting : Library bool bool :=
  {| proto_Marshal_SignedSubscription := marshal_bool;
     proto_Marshal_Config := marshal_bool;
     proto_Marshal_Ack := wire_Marshal_Ack;
     proto_Unmarshal_Ack := Wire.proto_Unmarshal;
     npb_Ack_Marshal := Wire.npb_Marshal;
     nats_Publish_returns := fun _ _ _ => None;
     stan_PublishAsync_returns := fun _ _ _ => ("guid", None);
     nats_Subscribe_returns := fun _ _ => Ok {| nats_id := 0 |};
     stan_Subscribe_returns := fun _ _ _ => Ok demo_sub;
     stan_Close_returns := fun _ _ => None;
     nats_Unsubscribe_returns := fun _ _ => None |}.

Definition connection_closed : error := libraryError "nats: connection closed".

(** Every call on a transport fails. *)
Definition rejecting : Library bool bool :=
  {| proto_Marshal_SignedSubscription := marshal_bool;
     proto_Marshal_Config := marshal_bool;
     proto_Marshal_Ack := wire_Marshal_Ack;
     proto_Unmarshal_Ack := Wire.proto_Unmarshal;
     npb_Ack_Marshal := Wire.npb_Marshal;
     nats_Publish_returns := fun _ _ _ => Some connection_closed;
     stan_PublishAsync_returns := fun _ _ _ => ("", Some connection_closed);
     nats_Subscribe_returns := fun _ _ => Err connection_closed;
     stan_Subscribe_returns := fun _ _ _ => Err connection_closed;
     stan_Close_returns := fun _ _ => Some connection_closed;
     nats_Unsubscribe_returns := fun _ _ => Some connection_closed |}.

Definition marshal_refused : error := libraryError "proto: field has invalid UTF-8".

(** The transports accept every call, and the codec refuses to serialize
    an ack, handing back no buffer. *)
Definition refusing_codec : Library bool bool :=
  {| proto_Marshal_SignedSubscription := marshal_bool;
     proto_Marshal_Config := marshal_bool;
     proto_Marshal_Ack := fun _ => ([], Some marshal_refused);
     proto_Unmarshal_Ack := Wire.proto_Unmarshal;
     npb_Ack_Marshal := fun _ => Err marshal_refused;
     nats_Publish_returns := fun _ _ _ => None;
     stan_PublishAsync_returns := fun _ _ _ => ("guid", None);
     nats_Subscribe_returns := fun _ _ => Ok {| nats_id := 0 |};
     stan_Subscribe_returns := fun _ _ _ => Ok demo_sub;
     stan_Close_returns := fun _ _ => None;
     nats_Unsubscribe_returns := fun _ _ => None |}.

(** The transports accept every call, and the codec hands back the
    serialized ack together with an error, as a serializer does that
    reports a fault it could encode around. *)
Definition complaining_codec : Library bool bool :=
  {| proto_Marshal_SignedSubscription := marshal_bool;
     proto_Marshal_Config := marshal_bool;
     proto_Marshal_Ack := fun a => (Wire.Marshal a, Some marshal_refused);
     proto_Unmarshal_Ack := Wire.proto_Unmarshal;
     npb_Ack_Marshal := Wire.npb_Marshal;
     nats_Publish_returns := fun _ _ _ => None;
     stan_PublishAsync_returns := fun _ _ _ => ("guid", None);
     nats_Subscribe_returns := fun _ _ => Ok {| nats_id := 0 |};
     stan_Subscribe_returns := fun _ _ _ => Ok demo_sub;
     stan_Close_returns := fun _ _ => None;
     nats_Unsubscribe_returns := fun _ _ => None |}.

(** The streaming cluster refuses subscriptions; the NATS server is up. *)
Definition stan_down : Library bool bool :=
  {| proto_Marshal_SignedSubscription := marshal_bool;
     proto_Marshal_Config := marshal_bool;
     proto_Marshal_Ack := wire_Marshal_Ack;
     proto_Unmarshal_Ack := Wire.proto_Unmarshal;
     npb_Ack_Marshal := Wire.npb_Marshal;
     nats_Publish_returns := fun _ _ _ => None;
     stan_PublishAsync_returns := fun _ _ _ => ("", Some connection_closed);
     nats_Subscribe_returns := fun _ _ => Ok {| nats_id := 0 |};
     stan_Subscribe_returns := fun _ _ _ => Err connection_closed;
     stan_Close_returns := fun _ _ => None;
     nats_Unsubscribe_returns := fun _ _ => None |}.

Definition w0 : world := {| trace := []; chans := 0 |}.


Definition demo_msg (seq : N) : stan_Msg :=
  {| msg_Sequence := seq;
     msg_Subject := "config.alpha";
     msg_Data := [x68; x69];
     msg_Sub := demo_sub |}.

Definition demo_ack : pubsub_Ack :=
  {| Inbox := "_INBOX.demo"; Subject := "config.alpha"; Sequence := 300 |}.

Definition validToken : bytes := Wire.Marshal demo_ack.

Definition garbageBytes : bytes := [xff].

(** The ranges of the Go types: lengths are [int], the sequence number is
    a [uint64]. *)
Definition in_range (a : pubsub_Ack) : Prop :=
  (N.of_nat (String.length (Inbox a)) < 2 ^ 63)%N /\
  (N.of_nat (String.length (Subject a)) < 2 ^ 63)%N /\
  (Sequence a < 2 ^ 64)%N.

(** ** Startup

    [Connect] reads the configuration from the environment, then dials the
    streaming cluster, then the NATS server. The environment reader, the
    UUID generator and the two dial calls are outside the package: their
    answers are parameters, and the calls are recorded in order. *)

Record stan_Conn : Type := {
  stan_conn_id : nat
}.

Record nats_Conn : Type := {
  nats_conn_id : nat
}.

(** The [Backend] struct; a nil connection is [None]. *)
Record Backend : Type := {
  stanConn : option stan_Conn;
  natsConn : option nats_Conn
}.

Inductive startup_event : Type :=
| envconfig_Process (prefix : string)
| uuid_NewV4
| stan_Connect (stanClusterID clientID natsURL : string)
| nats_Connect (url : string)
| startup_Stderr (text : string).

(** What the outside answers at startup. [envconfig.Process] writes into
    the [config] variable and may have filled some fields when it fails;
    a dial call hands back a connection and an error. *)
Record Startup : Type := {
  envconfig_Process_returns :
    list startup_event -> string -> config_t -> config_t * option error;
  uuid_NewV4_String : list startup_event -> string;
  stan_Connect_returns :
    list startup_event -> string -> string -> string ->
    option stan_Conn * option error;
  nats_Connect_returns :
    list startup_event -> string -> option nats_Conn * option error
}.

(** The receiver, the package-level [config] variable and what was done
    so far. *)
Record process : Type := {
  backend : Backend;
  config_var : config_t;
  startup_trace : list startup_event
}.

Definition Connect (st : Startup) (p : process) : option error * process :=
  let h0 := startup_trace p in
  let (cfg, err) := envconfig_Process_returns st h0 "stan" (config_var p) in
  let h1 := h0 ++ [envconfig_Process "stan"] in
  match err with
  | Some e =>
      (Some e,
       {| backend := backend p;
          config_var := cfg;
          startup_trace :=
            h1 ++ [startup_Stderr
                     ("Failed to read in STAN env variables: "
                        ++ Error e ++ nl)%string] |})
  | None =>
      let clientID := uuid_NewV4_String st h1 in
      let h2 := h1 ++ [uuid_NewV4] in
      let (sc, err) :=
        stan_Connect_returns st h2 (ClusterName cfg) clientID (NatsURL cfg) in
      let h3 := h2 ++ [stan_Connect (ClusterName cfg) clientID (NatsURL cfg)] in
      match err with
      | Some e =>
          (Some e,
           {| backend := {| stanConn := sc; natsConn := natsConn (backend p) |};
              config_var := cfg;
              startup_trace :=
                h3 ++ [startup_Stderr
                         ("Failed to connect to STAN server: "
                            ++ Error e ++ nl)%string] |})
      | None =>
          let (nc, err) := nats_Connect_returns st h3 (NatsURL cfg) in
          let h4 := h3 ++ [nats_Connect (NatsURL cfg)] in
          match err with
          | Some e =>
              (Some e,
               {| backend := {| stanConn := sc; natsConn := nc |};
                  config_var := cfg;
                  startup_trace :=
                    h4 ++ [startup_Stderr
                             ("Failed to connect to NATS server: "
                                ++ Error e ++ nl)%string] |})
          | None =>
              (None,
               {| backend := {| stanConn := sc; natsConn := nc |};
                  config_var := cfg;
                  startup_trace := h4 |})
          end
      end
  end.

Definition is_startup_Stderr (e : startup_event) : bool :=
  match e with
  | startup_Stderr _ => true
  | _ => false
  end.

Definition is_nats_Connect (e : startup_event) : bool :=
  match e with
  | nats_Connect _ => true
  | _ => false
  end.

(** ** Further vocabulary *)

(** Does the word [w] occur somewhere in [s]? *)
Fixpoint contains (w s : string) : bool :=
  String.prefix w s ||
  match s with
  | EmptyString => false
  | String _ s' => contains w s'
  end.

(** [xs] is [ys] with some elements left out. *)
Inductive subseq {A : Type} : list A -> list A -> Prop :=
| subseq_nil : subseq [] []
| subseq_skip : forall x xs ys, subseq xs ys -> subseq xs (x :: ys)
| subseq_keep : forall x xs ys, subseq xs ys -> subseq (x :: xs) (x :: ys).

Inductive transport : Type := NATS | STAN.

(** The connection a recorded call was made on. *)
Definition event_transport (e : event) : option transport :=
  match e with
  | natsConn_Publish _ _ => Some NATS
  | natsConn_Subscribe _ _ => Some NATS
  | stanConn_PublishAsync _ _ _ => Some STAN
  | stanConn_Subscribe _ _ _ => Some STAN
  | _ => None
  end.

(** What was recorded between the world [w] and the later world [w']. *)
Definition calls_since (w w' : world) : list event :=
  skipn (List.length (trace w)) (trace w').

Fixpoint transports_of (es : list event) : list transport :=
  match es with
  | [] => []
  | e :: es' =>
      match event_transport e with
      | Some t => t :: transports_of es'
      | None => transports_of es'
      end
  end.

Definition is_natsConn_Publish (e : event) : bool :=
  match e with
  | natsConn_Publish _ _ => true
  | _ => false
  end.

Definition is_ack_event (e : event) : bool :=
  match e with
  | os_Stderr _ => true
  | natsConn_Publish _ _ => true
  | _ => false
  end.

Definition is_publish (e : event) : bool :=
  match e with
  | natsConn_Publish _ _ => true
  | stanConn_PublishAsync _ _ _ => true
  | _ => false
  end.

Section MoreVocabulary.

Variables event_SignedSubscription pbconfig_Config : Type.
Variable lib : Library event_SignedSubscription pbconfig_Config.
Variable config : config_t.

(** The options every STAN subscription is opened with. *)
Definition durable_options : list stan_SubscriptionOption :=
  [stan_SetManualAckMode;
   stan_AckWait (int64 (int64 (AckWait config) * time_Second))].

(** What [Pull] hands back and leaves behind when it subscribes on the
    STAN connection with the options [opts]. *)
Definition pulled_stan (topic : string) (opts : list stan_SubscriptionOption)
    (w : world) : option subscription * chan * option error * world :=
  (match stan_Subscribe_returns lib (trace w) topic opts with
   | Ok s => (Some {| stanSub := Some s; natsSub := None |}, chans w, None)
   | Err e => (Some {| stanSub := None; natsSub := None |}, chans w, Some e)
   end,
   {| trace :=
        trace w ++ [stanConn_Subscribe topic
                      {| captured := ""; body := stanCallback lib (chans w) |}
                      opts];
      chans := S (chans w) |}).

(** The same for the NATS connection. *)
Definition pulled_nats (topic : string) (w : world)
  : option subscription * chan * option error * world :=
  (match nats_Subscribe_returns lib (trace w) topic with
   | Ok s => (Some {| stanSub := None; natsSub := Some s |}, chans w, None)
   | Err e => (Some {| stanSub := None; natsSub := None |}, chans w, Some e)
   end,
   {| trace := trace w ++ [natsConn_Subscribe topic (natsCallback (chans w))];
      chans := S (chans w) |}).

(** The ack that [Acknowledge] sends for a delivered message: the
    streaming protocol's ack record, published to the inbox. *)
Definition ack_publish (inbox : string) (m : stan_Msg) : event :=
  match npb_Ack_Marshal lib {| npb_Subject := msg_Subject m;
                               npb_Sequence := msg_Sequence m |} with
  | Ok b => natsConn_Publish inbox b
  | Err err => os_Stderr (unable_to_marshal err)
  end.

End MoreVocabulary.

(** Concrete startups. *)

Definition env_config : config_t :=
  {| ClusterName := "test-cluster"; NatsURL := "nats://nats:4222"; AckWait := 5 |}.

Definition all_up : Startup :=
  {| envconfig_Process_returns := fun _ _ _ => (env_config, None);
     uuid_NewV4_String := fun _ => "6ba7b810-9dad-41d1-80b4-00c04fd430c8";
     stan_Connect_returns := fun _ _ _ _ => (Some {| stan_conn_id := 0 |}, None);
     nats_Connect_returns := fun _ _ => (Some {| nats_conn_id := 0 |}, None) |}.

Definition no_servers : error := libraryError "nats: no servers available for connection".

Definition nats_down : Startup :=
  {| envconfig_Process_returns := fun _ _ _ => (env_config, None);
     uuid_NewV4_String := fun _ => "6ba7b810-9dad-41d1-80b4-00c04fd430c8";
     stan_Connect_returns := fun _ _ _ _ => (Some {| stan_conn_id := 0 |}, None);
     nats_Connect_returns := fun _ _ => (None, Some no_servers) |}.

Definition p0 : process :=
  {| backend := {| stanConn := None; natsConn := None |};
     config_var := {| ClusterName := ""; NatsURL := ""; AckWait := 0 |};
     startup_trace := [] |}.

Section Operations.

Variables event_SignedSubscription pbconfig_Config : Type.
Variable lib : Library event_SignedSubscription pbconfig_Config.
Variable config : config_t.

(** A call on the backend, and the world it leaves. *)
Inductive operation : Type :=
| do_Publish (topic : string)
    (msg : message event_SignedSubscription pbconfig_Config)
| do_Pull (topic : string)
| do_Acknowledge (acks : list bytes)
| do_Close (s : subscription).

Definition run_operation (o : operation) (w : world) : world :=
  match o with
  | do_Publish topic msg => snd (Publish lib topic msg w)
  | do_Pull topic => snd (Pull lib config topic w)
  | do_Acknowledge acks => snd (Acknowledge lib acks w)
  | do_Close s => snd (Close lib s w)
  end.

Fixpoint run_operations (os : list operation) (w : world) : world :=
  match os with
  | [] => w
  | o :: os' => run_operations os' (run_operation o w)
  end.

(** The channel that [Pull] hands back. *)
Definition Pull_chan (topic : string) (w : world) : chan :=
  snd (fst (fst (Pull lib config topic w))).

(** The connections on which a call of [Publish], resp. [Pull], made
    its calls. *)
Definition Publish_transports (topic : string)
    (msg : message event_SignedSubscription pbconfig_Config) (w : world)
  : list transport :=
  transports_of (calls_since w (snd (Publish lib topic msg w))).

Definition Pull_transports (topic : string) (w : world) : list transport :=
  transports_of (calls_since w (snd (Pull lib config topic w))).

(** The message that the STAN callback sends for [m] when the ack inbox
    in use is [inbox]. *)
Definition delivered (inbox : string) (m : stan_Msg) : ReceivedMessage :=
  {| Payload := msg_Data m; Ack := token_for lib inbox m |}.

End Operations.


(** * Part II: properties *)

(** ** The derivative matcher *)

Module RegexpFacts.
Import Regexp.
Local Open Scope string_scope.

Lemma app_empty_r (s : string) : s ++ "" = s.
Proof. induction s as [|c s IH]; simpl; [reflexivity | now rewrite IH]. Qed.

Lemma app_assoc (a b c : string) : (a ++ b) ++ c = a ++ (b ++ c).
Proof. induction a as [|x a IH]; simpl; [reflexivity | now rewrite IH]. Qed.

Lemma app_eq_empty (a b : string) : a ++ b = "" -> a = "" /\ b = "".
Proof. destruct a; simpl; [auto | discriminate]. Qed.

Lemma matches_cat_inv (r1 r2 : regex) (s : string) :
  matches (Cat r1 r2) s ->
  exists s1 s2, s = s1 ++ s2 /\ matches r1 s1 /\ matches r2 s2.
Proof. inversion 1; subst; eauto. Qed.

Lemma matches_alt_inv (r1 r2 : regex) (s : string) :
  matches (Alt r1 r2) s -> matches r1 s \/ matches r2 s.
Proof. inversion 1; subst; auto. Qed.

Lemma nullable_spec (r : regex) : nullable r = true <-> matches r "".
Proof.
  induction r; simpl; split; intro H; try discriminate; try reflexivity.
  - inversion H.
  - constructor.
  - inversion H.
  - inversion H.
  - apply andb_true_iff in H as [H1 H2].
    change "" with ("" ++ ""). constructor; [now apply IHr1 | now apply IHr2].
  - apply matches_cat_inv in H as (s1 & s2 & E & M1 & M2).
    symmetry in E. apply app_eq_empty in E as [-> ->].
    apply andb_true_iff; split; [now apply IHr1 | now apply IHr2].
  - apply orb_true_iff in H as [H|H];
      [apply m_alt_l; now apply IHr1 | apply m_alt_r; now apply IHr2].
  - apply orb_true_iff.
    apply matches_alt_inv in H as [H|H];
      [left; now apply IHr1 | right; now apply IHr2].
  - constructor.
Qed.

Lemma deriv_sound (r : regex) :
  forall c s, matches (deriv c r) s -> matches r (String c s).
Proof.
  induction r; intros c s H; simpl in H.
  - inversion H.
  - inversion H.
  - destruct (Ascii.eqb_spec c a) as [->|]; inversion H; subst. constructor.
  - destruct (Ascii.eqb_spec c newline) as [|N]; inversion H; subst.
    now constructor.
  - destruct (nullable r1) eqn:E.
    + apply matches_alt_inv in H as [M|M].
      * apply matches_cat_inv in M as (s1 & s2 & -> & M1 & M2).
        change (String c (s1 ++ s2)) with (String c s1 ++ s2).
        constructor; auto.
      * change (String c s) with ("" ++ String c s).
        constructor; [now apply nullable_spec | auto].
    + apply matches_cat_inv in H as (s1 & s2 & -> & M1 & M2).
      change (String c (s1 ++ s2)) with (String c s1 ++ s2).
      constructor; auto.
  - apply matches_alt_inv in H as [H|H]; [apply m_alt_l | apply m_alt_r]; auto.
  - apply matches_cat_inv in H as (s1 & s2 & -> & M1 & M2).
    change (String c (s1 ++ s2)) with (String c s1 ++ s2).
    constructor; auto.
Qed.

Lemma deriv_complete (r : regex) (t : string) :
  matches r t -> forall c s, t = String c s -> matches (deriv c r) s.
Proof.
  induction 1 as [|d|d N|r1 r2 s1 s2 M1 IH1 M2 IH2|r1 r2 s0 M IH
                  |r1 r2 s0 M IH|r0|r0 d s1 s2 M1 IH1 M2 IH2];
    intros c s E; simpl.
  - discriminate.
  - injection E as <- <-. rewrite Ascii.eqb_refl. constructor.
  - injection E as <- <-.
    destruct (Ascii.eqb_spec d newline); [contradiction | constructor].
  - destruct s1 as [|x s1]; simpl in E.
    + assert (Hn : nullable r1 = true) by now apply nullable_spec.
      rewrite Hn. apply m_alt_r. now apply IH2.
    + injection E as -> <-.
      destruct (nullable r1); [apply m_alt_l|]; constructor; auto.
  - apply m_alt_l; auto.
  - apply m_alt_r; auto.
  - discriminate.
  - simpl in E. injection E as -> <-. constructor; auto.
Qed.

Lemma deriv_spec (r : regex) (c : ascii) (s : string) :
  matches (deriv c r) s <-> matches r (String c s).
Proof.
  split; [apply deriv_sound | intro H; eapply deriv_complete; eauto].
Qed.

Lemma match_here_spec (s : string) :
  forall r, match_here r s = true <->
            exists p q, s = p ++ q /\ matches r p.
Proof.
  induction s as [|c s IH]; intro r; simpl.
  - rewrite orb_false_r. split.
    + intro H. apply nullable_spec in H. now exists "", "".
    + intros (p & q & E & M). symmetry in E.
      apply app_eq_empty in E as [-> _]. now apply nullable_spec.
  - rewrite orb_true_iff. split.
    + intros [H|H].
      * apply nullable_spec in H. now exists "", (String c s).
      * apply IH in H as (p & q & -> & M).
        exists (String c p), q. split; [reflexivity | now apply deriv_spec].
    + intros (p & q & E & M). destruct p as [|x p].
      * left. now apply nullable_spec.
      * simpl in E. injection E as <- ->. right. apply IH.
        exists p, q. split; [reflexivity | now apply deriv_spec].
Qed.

(** [MatchString] holds exactly when some substring is in the language. *)
Theorem MatchString_spec (r : regex) (s : string) :
  MatchString r s = true <->
  exists a p b, s = a ++ p ++ b /\ matches r p.
Proof.
  induction s as [|c s IH].
  - simpl. rewrite !orb_false_r. split.
    + intro H. apply nullable_spec in H. now exists "", "", "".
    + intros (a & p & b & E & M). symmetry in E.
      apply app_eq_empty in E as [-> E].
      apply app_eq_empty in E as [-> _]. now apply nullable_spec.
  - cbn [MatchString]. rewrite orb_true_iff. split.
    + intros [H|H].
      * apply match_here_spec in H as (p & q & E & M).
        exists "", p, q. now split.
      * apply IH in H as (a & p & b & -> & M).
        exists (String c a), p, b. now split.
    + intros (a & p & b & E & M). destruct a as [|x a].
      * left. apply match_here_spec. exists p, b. now split.
      * simpl in E. injection E as <- ->. right. apply IH.
        now exists a, p, b.
Qed.

Lemma matches_word (w : string) (s : string) : matches (word w) s <-> s = w.
Proof.
  revert s. induction w as [|c w IH]; intro s; simpl; split; intro H.
  - now inversion H.
  - subst. constructor.
  - apply matches_cat_inv in H as (s1 & s2 & -> & M1 & M2).
    inversion M1; subst. apply IH in M2. now subst.
  - subst. change (String c w) with (String c "" ++ w).
    constructor; [constructor | now apply IH].
Qed.

(** A pattern [w.*] is found in [s] exactly when the word [w] occurs
    somewhere in [s]: the trailing [.*] may match the empty string. *)
Lemma MatchString_word_dotstar (w s : string) :
  MatchString (Cat (word w) (Star AnyNotNL)) s = true <->
  exists a b, s = a ++ w ++ b.
Proof.
  rewrite MatchString_spec. split.
  - intros (a & p & b & -> & M).
    apply matches_cat_inv in M as (s1 & s2 & -> & M1 & M2).
    apply matches_word in M1. subst.
    exists a, (s2 ++ b). now rewrite app_assoc.
  - intros (a & b & ->). exists a, w, b. split; [reflexivity|].
    rewrite <- (app_empty_r w) at 2.
    constructor; [now apply matches_word | constructor].
Qed.

End RegexpFacts.

(** ** The wire form of the ack token *)

Module WireFacts.
Import Wire.
Local Open Scope list_scope.
Local Open Scope N_scope.

Lemma to_N_byte_of_N (n : N) : n < 256 -> Byte.to_N (byte_of_N n) = n.
Proof.
  intro H. unfold byte_of_N. rewrite N.mod_small by exact H.
  destruct (Byte.of_N n) as [b|] eqn:E.
  - now apply Byte.to_of_N.
  - apply Byte.of_N_None_iff in E. lia.
Qed.

Lemma varint_fuel_roundtrip (fuel : nat) :
  forall x rest, x < 128 ^ N.of_nat (S fuel) ->
    DecodeVarint_fuel (S fuel) (EncodeVarint_fuel (S fuel) x ++ rest)
    = Some (x, rest).
Proof.
  induction fuel as [|fuel IH]; intros x rest Hx.
  - assert (E : (x <? 128) = true) by (apply N.ltb_lt; exact Hx).
    cbn [EncodeVarint_fuel]. rewrite E. cbn [app DecodeVarint_fuel].
    rewrite to_N_byte_of_N by (apply N.ltb_lt in E; lia). now rewrite E.
  - remember (S fuel) as f eqn:Ef.
    cbn [EncodeVarint_fuel]. destruct (x <? 128) eqn:E.
    + cbn [app DecodeVarint_fuel].
      rewrite to_N_byte_of_N by (apply N.ltb_lt in E; lia). now rewrite E.
    + apply N.ltb_ge in E. cbn [app DecodeVarint_fuel].
      assert (Hm : x mod 128 < 128) by (apply N.mod_lt; lia).
      pose proof (N.div_mod x 128 ltac:(lia)) as Hd.
      set (m := x mod 128) in *. set (q := x / 128) in *.
      rewrite to_N_byte_of_N by lia.
      assert (E' : (128 + m <? 128) = false) by (apply N.ltb_ge; lia).
      rewrite E'. rewrite IH.
      * f_equal. f_equal. lia.
      * rewrite Nat2N.inj_succ, N.pow_succ_r' in Hx.
        subst q. apply N.Div0.div_lt_upper_bound. exact Hx.
Qed.

Lemma varint_roundtrip (x : N) (rest : bytes) :
  x < 2 ^ 64 -> DecodeVarint (EncodeVarint x ++ rest) = Some (x, rest).
Proof.
  intro H. unfold DecodeVarint, EncodeVarint.
  rewrite varint_fuel_roundtrip.
  - now rewrite N.mod_small.
  - eapply N.lt_trans; [exact H | reflexivity].
Qed.

Lemma EncodeVarint_nonempty (x : N) : EncodeVarint x <> [].
Proof.
  unfold EncodeVarint. cbn [EncodeVarint_fuel].
  destruct (x <? 128); discriminate.
Qed.

Lemma take_app (b rest : bytes) :
  take (N.of_nat (List.length b)) (b ++ rest) = Some (b, rest).
Proof.
  unfold take. rewrite length_app, Nat2N.id.
  assert (E : (N.of_nat (List.length b + List.length rest) <? N.of_nat (List.length b)) = false)
    by (apply N.ltb_ge; lia).
  rewrite E, firstn_app, skipn_app, Nat.sub_diag, firstn_all, skipn_all.
  cbn [firstn skipn app]. now rewrite app_nil_r.
Qed.

Lemma length_list_byte_of_string (s : string) :
  List.length (list_byte_of_string s) = String.length s.
Proof.
  unfold list_byte_of_string. rewrite length_map.
  induction s; simpl; congruence.
Qed.

Lemma raw_bytes_roundtrip (s : string) (rest : bytes) :
  N.of_nat (String.length s) < 2 ^ 64 ->
  DecodeRawBytes (EncodeStringBytes s ++ rest)
  = Some (list_byte_of_string s, rest).
Proof.
  intro H. unfold DecodeRawBytes, EncodeStringBytes.
  rewrite <- app_assoc, varint_roundtrip by exact H.
  rewrite <- length_list_byte_of_string. apply take_app.
Qed.

Lemma unmarshalLoop_more_fuel (fuel : nat) :
  forall k a buf r, unmarshalLoop fuel a buf = Some r ->
                    unmarshalLoop (k + fuel) a buf = Some r.
Proof.
  induction fuel as [|fuel IH]; intros k a buf r H.
  - destruct buf; [|discriminate]. destruct k; exact H.
  - rewrite Nat.add_succ_r. destruct buf as [|b buf]; [exact H|].
    cbn [unmarshalLoop] in *.
    destruct (unmarshalField a (b :: buf)) as [[a' rest]|]; [|discriminate].
    now apply IH.
Qed.

Lemma Unmarshal_from_field (a a' r : pubsub_Ack) (fld rest : bytes) :
  fld <> [] ->
  unmarshalField a (fld ++ rest) = Some (a', rest) ->
  Unmarshal_from a' rest = Some r ->
  Unmarshal_from a (fld ++ rest) = Some r.
Proof.
  intros Hne Hf Hr. unfold Unmarshal_from in *.
  destruct fld as [|b fld]; [contradiction|].
  rewrite length_app. cbn [List.length Nat.add app unmarshalLoop].
  change (b :: fld ++ rest) with ((b :: fld) ++ rest). rewrite Hf.
  now apply unmarshalLoop_more_fuel.
Qed.

Lemma app_nonempty (A : Type) (x y : list A) : x <> [] -> x ++ y <> [].
Proof. destruct x; [contradiction | discriminate]. Qed.

Lemma Unmarshal_from_Inbox (a r : pubsub_Ack) (s : string) (rest : bytes) :
  N.of_nat (String.length s) < 2 ^ 64 ->
  Inbox a = "" ->
  Unmarshal_from {| Inbox := s; Subject := Subject a; Sequence := Sequence a |}
    rest = Some r ->
  Unmarshal_from a (field_string 1 s ++ rest) = Some r.
Proof.
  intros Hl Ha Hr. unfold field_string.
  destruct (String.eqb_spec s "") as [->|Hs].
  - destruct a; simpl in *; subst. exact Hr.
  - eapply Unmarshal_from_field; [| |exact Hr].
    + apply app_nonempty, EncodeVarint_nonempty.
    + unfold unmarshalField. rewrite <- app_assoc.
      rewrite varint_roundtrip by (vm_compute; reflexivity).
      cbn -[DecodeRawBytes EncodeStringBytes].
      rewrite raw_bytes_roundtrip by exact Hl.
      now rewrite string_of_list_byte_of_string.
Qed.

Lemma Unmarshal_from_Subject (a r : pubsub_Ack) (s : string) (rest : bytes) :
  N.of_nat (String.length s) < 2 ^ 64 ->
  Subject a = "" ->
  Unmarshal_from {| Inbox := Inbox a; Subject := s; Sequence := Sequence a |}
    rest = Some r ->
  Unmarshal_from a (field_string 2 s ++ rest) = Some r.
Proof.
  intros Hl Ha Hr. unfold field_string.
  destruct (String.eqb_spec s "") as [->|Hs].
  - destruct a; simpl in *; subst. exact Hr.
  - eapply Unmarshal_from_field; [| |exact Hr].
    + apply app_nonempty, EncodeVarint_nonempty.
    + unfold unmarshalField. rewrite <- app_assoc.
      rewrite varint_roundtrip by (vm_compute; reflexivity).
      cbn -[DecodeRawBytes EncodeStringBytes].
      rewrite raw_bytes_roundtrip by exact Hl.
      now rewrite string_of_list_byte_of_string.
Qed.

Lemma Unmarshal_from_Sequence (a r : pubsub_Ack) (x : N) (rest : bytes) :
  x < 2 ^ 64 ->
  Sequence a = 0 ->
  Unmarshal_from {| Inbox := Inbox a; Subject := Subject a; Sequence := x |}
    rest = Some r ->
  Unmarshal_from a (field_uint64 3 x ++ rest) = Some r.
Proof.
  intros Hl Ha Hr. unfold field_uint64.
  destruct (N.eqb_spec x 0) as [->|Hs].
  - destruct a; simpl in *; subst. exact Hr.
  - eapply Unmarshal_from_field; [| |exact Hr].
    + apply app_nonempty, EncodeVarint_nonempty.
    + unfold unmarshalField. rewrite <- app_assoc.
      rewrite varint_roundtrip by (vm_compute; reflexivity).
      cbn -[DecodeVarint EncodeVarint].
      now rewrite varint_roundtrip by exact Hl.
Qed.

Theorem Marshal_Unmarshal (a : pubsub_Ack) :
  in_range a -> Unmarshal (Marshal a) = Some a.
Proof.
  intros (Hi & Hs & Hq). unfold Marshal.
  change (Unmarshal ?b) with (Unmarshal_from zero b).
  assert (B : (2 ^ 63 < 2 ^ 64)%N) by reflexivity.
  apply Unmarshal_from_Inbox; [lia | reflexivity |].
  apply Unmarshal_from_Subject; [lia | reflexivity |].
  rewrite <- (app_nil_r (field_uint64 3 (Sequence a))).
  apply Unmarshal_from_Sequence; [lia | reflexivity |].
  destruct a; reflexivity.
Qed.

(** A token with a sequence number is never empty. *)
Lemma Marshal_nonempty (a : pubsub_Ack) : Sequence a <> 0 -> Marshal a <> [].
Proof.
  intros H E. unfold Marshal in E.
  apply app_eq_nil in E as [_ E]. apply app_eq_nil in E as [_ E].
  unfold field_uint64 in E. destruct (N.eqb_spec (Sequence a) 0); [contradiction|].
  apply app_eq_nil in E as [E _]. now apply EncodeVarint_nonempty in E.
Qed.


End WireFacts.

(** ** The backend *)

Section BackendFacts.

Variables event_SignedSubscription pbconfig_Config : Type.
Variable lib : Library event_SignedSubscription pbconfig_Config.
Variable config : config_t.

Let ackWait : stan_SubscriptionOption :=
  stan_AckWait (int64 (int64 (AckWait config) * time_Second)).

Let stan_cb (messages : chan) : closure stan_Msg :=
  {| captured := ""; body := stanCallback lib messages |}.

(** *** Routing in [Pull] *)

Lemma Pull_config_class (topic : string) (w : world) :
  Regexp.MatchString maybeConfig topic = true ->
  let opts := [stan_DeliverAllAvailable; stan_SetManualAckMode; ackWait] in
  Pull lib config topic w =
  (match stan_Subscribe_returns lib (trace w) topic opts with
   | Ok s => (Some {| stanSub := Some s; natsSub := None |}, chans w, None)
   | Err e => (Some {| stanSub := None; natsSub := None |}, chans w, Some e)
   end,
   {| trace := trace w ++ [stanConn_Subscribe topic (stan_cb (chans w)) opts];
      chans := S (chans w) |}).
Proof.
  intros H opts. subst opts ackWait stan_cb.
  unfold Pull, bind, make_chan. rewrite H.
  unfold stanSubscribe, call_stanConn_Subscribe, bind, history, record, ret.
  cbn. now destruct (stan_Subscribe_returns lib (trace w) topic _).
Qed.

Lemma Pull_subscription_class (topic : string) (w : world) :
  Regexp.MatchString maybeConfig topic = false ->
  Regexp.MatchString maybeSubscription topic = true ->
  Pull lib config topic w =
  (match nats_Subscribe_returns lib (trace w) topic with
   | Ok s => (Some {| stanSub := None; natsSub := Some s |}, chans w, None)
   | Err e => (Some {| stanSub := None; natsSub := None |}, chans w, Some e)
   end,
   {| trace := trace w ++ [natsConn_Subscribe topic (natsCallback (chans w))];
      chans := S (chans w) |}).
Proof.
  intros H1 H2. unfold Pull, bind, make_chan. rewrite H1, H2.
  unfold natsSubscribe, call_natsConn_Subscribe, bind, history, record, ret.
  cbn. now destruct (nats_Subscribe_returns lib (trace w) topic).
Qed.

Lemma Pull_default_class (topic : string) (w : world) :
  Regexp.MatchString maybeConfig topic = false ->
  Regexp.MatchString maybeSubscription topic = false ->
  let opts := [stan_SetManualAckMode; ackWait] in
  Pull lib config topic w =
  (match stan_Subscribe_returns lib (trace w) topic opts with
   | Ok s => (Some {| stanSub := Some s; natsSub := None |}, chans w, None)
   | Err e => (Some {| stanSub := None; natsSub := None |}, chans w, Some e)
   end,
   {| trace := trace w ++ [stanConn_Subscribe topic (stan_cb (chans w)) opts];
      chans := S (chans w) |}).
Proof.
  intros H1 H2 opts. subst opts ackWait stan_cb.
  unfold Pull, bind, make_chan. rewrite H1, H2.
  unfold stanSubscribe, call_stanConn_Subscribe, bind, history, record, ret.
  cbn. now destruct (stan_Subscribe_returns lib (trace w) topic _).
Qed.

(** The two patterns are searched for, not anchored: the class of a topic
    is decided by the occurrence of the words anywhere in it. *)
Lemma maybeConfig_occurs (topic : string) :
  Regexp.MatchString maybeConfig topic = true <->
  exists a b, topic = (a ++ "config." ++ b)%string.
Proof. apply RegexpFacts.MatchString_word_dotstar. Qed.

Lemma maybeSubscription_occurs (topic : string) :
  Regexp.MatchString maybeSubscription topic = true <->
  exists a b, topic = (a ++ "subscription." ++ b)%string.
Proof. apply RegexpFacts.MatchString_word_dotstar. Qed.

(** A topic that begins with [config.] is in the config class. *)
Lemma Pull_config_prefix (rest : string) (w : world) :
  let topic := ("config." ++ rest)%string in
  trace (snd (Pull lib config topic w)) =
  trace w ++ [stanConn_Subscribe topic (stan_cb (chans w))
                [stan_DeliverAllAvailable; stan_SetManualAckMode; ackWait]].
Proof.
  intro topic. rewrite Pull_config_class; [reflexivity|].
  apply maybeConfig_occurs. now exists ""%string, rest.
Qed.

(** The handle that [Pull] hands back is never nil and never has both
    variants populated. *)
Lemma Pull_handle (topic : string) (w : world) :
  exists s, fst (fst (fst (Pull lib config topic w))) = Some s /\
            (stanSub s = None \/ natsSub s = None).
Proof.
  destruct (Regexp.MatchString maybeConfig topic) eqn:H1.
  - rewrite Pull_config_class by exact H1. cbv zeta.
    destruct (stan_Subscribe_returns _ _ _ _); cbn; eauto.
  - destruct (Regexp.MatchString maybeSubscription topic) eqn:H2.
    + rewrite Pull_subscription_class by assumption.
      destruct (nats_Subscribe_returns _ _ _); cbn; eauto.
    + rewrite Pull_default_class by assumption. cbv zeta.
      destruct (stan_Subscribe_returns _ _ _ _); cbn; eauto.
Qed.

(** *** Publish *)

(** C2: for every topic and every payload whose dynamic type is none of
    the three known ones, [Publish] returns the invalid-message-type
    error, whose text ends in the name of the type, and the world is
    left as it was: no call reaches either transport. *)
Theorem C2_Publish_invalid_kind (topic typeName : string) (w : world) :
  Publish lib topic (other typeName) w
  = (Some (ErrInvalidMessageType typeName), w) /\
  Error (ErrInvalidMessageType typeName)
  = ("invalid message type " ++ typeName)%string.
Proof. split; reflexivity. Qed.

(** C3: [Publish] looks at the payload only. For every topic, a signed
    subscription that serializes is published on the NATS connection and
    the answer of that call is the result; a config document that
    serializes, and a byte slice as it is, go to the STAN connection's
    asynchronous publish with a handler that does nothing, and the
    call's error is the result; a payload that does not serialize makes
    [Publish] return the codec's error with the world left as it was. *)
Theorem C3_Publish_dispatch (topic : string) (w : world) :
  (forall p,
      Publish lib topic (SignedSubscription_ptr _ p) w =
      match proto_Marshal_SignedSubscription lib p with
      | Ok b => (nats_Publish_returns lib (trace w) topic b,
                 add_events w [natsConn_Publish topic b])
      | Err e => (Some e, w)
      end) /\
  (forall p,
      Publish lib topic (Config_ptr _ p) w =
      match proto_Marshal_Config lib p with
      | Ok b => (snd (stan_PublishAsync_returns lib (trace w) topic b),
                 add_events w [stanConn_PublishAsync topic b no_AckHandler])
      | Err e => (Some e, w)
      end) /\
  (forall b,
      Publish lib topic (byte_slice b) w =
      (snd (stan_PublishAsync_returns lib (trace w) topic b),
       add_events w [stanConn_PublishAsync topic b no_AckHandler])) /\
  (forall guid err, no_AckHandler guid err = []).
Proof.
  repeat split.
  - intro p. cbn. destruct (proto_Marshal_SignedSubscription lib p) as [b|e].
    + cbv [bind call_natsConn_Publish history record ret add_events].
      now destruct (nats_Publish_returns lib (trace w) topic b).
    + reflexivity.
  - intro p. cbn. destruct (proto_Marshal_Config lib p) as [b|e].
    + cbv [bind call_stanConn_PublishAsync history record ret add_events].
      cbn. now destruct (snd (stan_PublishAsync_returns lib (trace w) topic b)).
    + reflexivity.
  - intro b. cbn.
    cbv [bind call_stanConn_PublishAsync history record ret add_events].
    cbn. now destruct (snd (stan_PublishAsync_returns lib (trace w) topic b)).
Qed.

(** *** Close *)

(** C8: [Close] goes by the populated variant. With the STAN
    subscription set it calls that subscription's [Close] (the call that
    keeps the durable subscription, not [Unsubscribe]) and returns its
    answer; with only the NATS subscription set it calls [Unsubscribe]
    and returns its answer; with neither set it returns the
    no-subscription-found error and calls nothing. *)
Theorem C8_Close_by_variant (w : world) :
  (forall ss ns,
      Close lib {| stanSub := Some ss; natsSub := ns |} w =
      (stan_Close_returns lib (trace w) ss,
       add_events w [stanSub_Close ss])) /\
  (forall ns,
      Close lib {| stanSub := None; natsSub := Some ns |} w =
      (nats_Unsubscribe_returns lib (trace w) ns,
       add_events w [natsSub_Unsubscribe ns])) /\
  Close lib {| stanSub := None; natsSub := None |} w =
  (Some ErrNoSubscriptionFound, w).
Proof. repeat split. Qed.

(** *** Acknowledge *)

Ltac run_calls :=
  cbv [bind call_natsConn_Publish history record ret Fprintf_os_Stderr].

(** What [Acknowledge] does with a single token. *)
Lemma Acknowledge_single (ackBytes : bytes) (w : world) :
  Acknowledge lib [ackBytes] w =
  match proto_Unmarshal_Ack lib ackBytes with
  | Err err =>
      (([ackBytes], None), add_events w [os_Stderr (unable_to_marshal err)])
  | Ok ack =>
      match npb_Ack_Marshal lib {| npb_Subject := Subject ack;
                                   npb_Sequence := Sequence ack |} with
      | Err err =>
          (([], None), add_events w [os_Stderr (unable_to_marshal err)])
      | Ok b =>
          match nats_Publish_returns lib (trace w) (Inbox ack) b with
          | Some e =>
              (([ackBytes], None),
               add_events w [natsConn_Publish (Inbox ack) b;
                             os_Stderr (unable_to_publish e)])
          | None => (([], None), add_events w [natsConn_Publish (Inbox ack) b])
          end
      end
  end.
Proof.
  unfold Acknowledge. cbn [ackLoop].
  destruct (proto_Unmarshal_Ack lib ackBytes) as [ack|err].
  - destruct (npb_Ack_Marshal lib _) as [b|err].
    + run_calls. cbn.
      destruct (nats_Publish_returns lib (trace w) (Inbox ack) b).
      * unfold add_events. cbn. now rewrite <- app_assoc.
      * reflexivity.
    + reflexivity.
  - reflexivity.
Qed.

(** The tokens already on the failed list stay in front of it. *)
Lemma ackLoop_failedAcks (acks : list bytes) :
  forall failedAcks w,
    ackLoop lib acks failedAcks w =
    (failedAcks ++ fst (ackLoop lib acks [] w), snd (ackLoop lib acks [] w)).
Proof.
  induction acks as [|ackBytes acks IH]; intros failedAcks w.
  - cbn. now rewrite app_nil_r.
  - cbn [ackLoop].
    destruct (proto_Unmarshal_Ack lib ackBytes) as [ack|err].
    + destruct (npb_Ack_Marshal lib _) as [b|err].
      * run_calls.
        destruct (nats_Publish_returns lib (trace w) (Inbox ack) b).
        -- rewrite IH, (IH ([] ++ [ackBytes])). cbn.
           now rewrite <- app_assoc.
        -- apply IH.
      * run_calls. apply IH.
    + run_calls. rewrite IH, (IH ([] ++ [ackBytes])). cbn.
      now rewrite <- app_assoc.
Qed.

(** The loop handles the first token, then the rest in the world that
    the first one left. *)
Lemma Acknowledge_cons (ackBytes : bytes) (acks : list bytes) (w : world) :
  Acknowledge lib (ackBytes :: acks) w =
  ((failedAcks_of lib [ackBytes] w
      ++ failedAcks_of lib acks (world_after lib [ackBytes] w), None),
   world_after lib acks (world_after lib [ackBytes] w)).
Proof.
  unfold failedAcks_of, world_after. rewrite Acknowledge_single.
  unfold Acknowledge, bind, ret. cbn [ackLoop].
  destruct (proto_Unmarshal_Ack lib ackBytes) as [ack|err].
  - destruct (npb_Ack_Marshal lib _) as [b|err].
    + run_calls.
      destruct (nats_Publish_returns lib (trace w) (Inbox ack) b); cbn.
      * rewrite ackLoop_failedAcks. unfold add_events. cbn.
        rewrite <- app_assoc. cbn.
        now destruct (ackLoop lib acks [] _).
      * unfold add_events. now destruct (ackLoop lib acks [] _).
    + run_calls. cbn. unfold add_events. now destruct (ackLoop lib acks [] _).
  - run_calls. cbn. rewrite ackLoop_failedAcks. unfold add_events. cbn.
    now destruct (ackLoop lib acks [] _).
Qed.

Lemma Acknowledge_nil (w : world) : Acknowledge lib [] w = (([], None), w).
Proof. reflexivity. Qed.

(** C4: in a batch in which every ack record that gets published is
    accepted by the transport, the failed list is the list of the tokens
    that do not decode, as they were handed in and in their order; and
    every token of the batch is processed: the trace grows by one event
    per token, the log line of its failure or the publish of its ack
    record. *)
Theorem C4_Acknowledge_decode_failures (acks : list bytes) (w : world) :
  publishes_accepted lib acks ->
  Acknowledge lib acks w =
  ((filter (undecodable lib) acks, None),
   add_events w (map (first_event lib) acks)) /\
  List.length (failedAcks_of lib acks w) = List.length (filter (undecodable lib) acks) /\
  List.length (trace (world_after lib acks w)) = List.length (trace w) + List.length acks.
Proof.
  intro Hpub.
  assert (E : Acknowledge lib acks w =
              ((filter (undecodable lib) acks, None),
               add_events w (map (first_event lib) acks))).
  { revert w. induction acks as [|ackBytes acks IH]; intro w.
    - unfold add_events. cbn. rewrite app_nil_r. now destruct w.
    - rewrite Acknowledge_cons. unfold failedAcks_of, world_after.
      rewrite Acknowledge_single.
      assert (Hrest : forall w', Acknowledge lib acks w' =
                ((filter (undecodable lib) acks, None),
                 add_events w' (map (first_event lib) acks))).
      { intro w'. apply IH. intros t a b h Hin. apply Hpub. now right. }
      cbn [filter map]. unfold undecodable at 1, first_event at 1.
      destruct (proto_Unmarshal_Ack lib ackBytes) as [ack|err] eqn:Hu.
      + destruct (npb_Ack_Marshal lib _) as [b|err] eqn:Hm.
        * rewrite (Hpub ackBytes ack b (trace w) (or_introl eq_refl) Hu Hm).
          cbn. rewrite Hrest. unfold add_events. cbn.
          now rewrite <- app_assoc.
        * cbn. rewrite Hrest. unfold add_events. cbn.
          now rewrite <- app_assoc.
      + cbn. rewrite Hrest. unfold add_events. cbn.
        now rewrite <- app_assoc. }
  split; [exact E|]. unfold failedAcks_of, world_after. rewrite E. cbn.
  split; [reflexivity|]. now rewrite length_app, length_map.
Qed.

(** C5: [Acknowledge] never returns an error. A token that does not
    decode is logged and put on the failed list; a token that decodes
    and whose ack record does not serialize is logged and not put on the
    list; a token whose ack record is published to the decoded inbox on
    the NATS connection and refused is logged and put on the list as it
    was handed in; an accepted one leaves no mark. A batch is handled
    token by token, each in the world the one before left. *)
Theorem C5_Acknowledge_failed_list (w : world) :
  (forall acks, snd (fst (Acknowledge lib acks w)) = None) /\
  (forall ackBytes,
      Acknowledge lib [ackBytes] w =
      match proto_Unmarshal_Ack lib ackBytes with
      | Err err =>
          (([ackBytes], None),
           add_events w [os_Stderr (unable_to_marshal err)])
      | Ok ack =>
          match npb_Ack_Marshal lib {| npb_Subject := Subject ack;
                                       npb_Sequence := Sequence ack |} with
          | Err err =>
              (([], None), add_events w [os_Stderr (unable_to_marshal err)])
          | Ok b =>
              match nats_Publish_returns lib (trace w) (Inbox ack) b with
              | Some e =>
                  (([ackBytes], None),
                   add_events w [natsConn_Publish (Inbox ack) b;
                                 os_Stderr (unable_to_publish e)])
              | None =>
                  (([], None), add_events w [natsConn_Publish (Inbox ack) b])
              end
          end
      end) /\
  (forall ackBytes acks,
      failedAcks_of lib (ackBytes :: acks) w =
      failedAcks_of lib [ackBytes] w
        ++ failedAcks_of lib acks (world_after lib [ackBytes] w)).
Proof.
  split; [|split].
  - intro acks. unfold Acknowledge, bind, ret.
    now destruct (ackLoop lib acks [] w).
  - intro ackBytes. apply Acknowledge_single.
  - intros ackBytes acks. unfold failedAcks_of at 1.
    now rewrite Acknowledge_cons.
Qed.

(** *** Delivery *)

Lemma deliver_app (A : Type) (f : string -> A -> string * list effect)
    (xs ys : list A) :
  forall cached,
    deliver f cached (xs ++ ys) =
    (fst (deliver f (fst (deliver f cached xs)) ys),
     snd (deliver f cached xs)
       ++ snd (deliver f (fst (deliver f cached xs)) ys)).
Proof.
  induction xs as [|x xs IH]; intro cached.
  - cbn. now destruct (deliver f cached ys).
  - cbn. destruct (f cached x) as [cached' es]. rewrite IH.
    destruct (deliver f cached' xs) as [c1 e1]. cbn.
    now rewrite app_assoc.
Qed.

Lemma received_app (c : chan) (xs ys : list effect) :
  received c (xs ++ ys) = received c xs ++ received c ys.
Proof.
  induction xs as [|[text|c' m] xs IH]; cbn; [reflexivity | exact IH |].
  destruct (Nat.eqb c c'); cbn; now rewrite IH.
Qed.

(** Every run of the callback sends exactly one message. *)
Lemma stanCallback_received (c : chan) (cached : string) (m : stan_Msg) :
  received c (snd (stanCallback lib c cached m)) =
  [{| Payload := msg_Data m; Ack := token_for lib cached m |}] /\
  fst (stanCallback lib c cached m) = resolve_ackInbox cached m.
Proof.
  unfold stanCallback, token_for.
  destruct (proto_Marshal_Ack lib (ack_for cached m)) as [b [e|]]; cbn;
    now rewrite Nat.eqb_refl.
Qed.

Lemma deliver_stanCallback_cons (c : chan) (cached : string) (m : stan_Msg)
    (ms : list stan_Msg) :
  received c (snd (deliver (stanCallback lib c) cached (m :: ms))) =
  {| Payload := msg_Data m; Ack := token_for lib cached m |}
    :: received c (snd (deliver (stanCallback lib c)
                          (resolve_ackInbox cached m) ms)).
Proof.
  destruct (stanCallback_received c cached m) as [Hr Hc].
  cbn [deliver]. destruct (stanCallback lib c cached m) as [cached' es].
  cbn in Hr, Hc. subst cached'.
  destruct (deliver (stanCallback lib c) (resolve_ackInbox cached m) ms).
  cbn. now rewrite received_app, Hr.
Qed.

Lemma deliver_stanCallback_length (c : chan) (ms : list stan_Msg) :
  forall cached,
    List.length (received c (snd (deliver (stanCallback lib c) cached ms)))
    = List.length ms.
Proof.
  induction ms as [|m ms IH]; intro cached; [reflexivity|].
  rewrite deliver_stanCallback_cons. cbn. now rewrite IH.
Qed.

(** The ack address is resolved once and reused: when the transport
    hands in messages of one subscription, every token is built with that
    subscription's ack inbox. *)
Lemma stan_stream_one_subscription (c : chan) (inbox : string)
    (ms : list stan_Msg) :
  Forall (fun m => ackInbox (msg_Sub m) = inbox) ms ->
  stan_stream lib c ms =
  map (fun m => {| Payload := msg_Data m;
                   Ack := token_for lib inbox m |}) ms.
Proof.
  intro H. unfold stan_stream, run_closure. cbn [body captured].
  assert (G : forall cached, cached = ""%string \/ cached = inbox ->
            received c (snd (deliver (stanCallback lib c) cached ms)) =
            map (fun m => {| Payload := msg_Data m;
                             Ack := token_for lib inbox m |}) ms).
  { induction H as [|m ms Hm Hms IH]; intros cached Hc; [reflexivity|].
    assert (R : forall k, k = ""%string \/ k = inbox ->
                          resolve_ackInbox k m = inbox).
    { intros k [-> | ->]; unfold resolve_ackInbox; [exact Hm|].
      now destruct (String.eqb inbox ""). }
    rewrite deliver_stanCallback_cons. cbn [map].
    rewrite IH by (right; now apply R). f_equal. f_equal.
    unfold token_for, ack_for. rewrite !R; auto. }
  apply G. now left.
Qed.

(** The cache after a run of the callback: what it was when it was not
    empty, and else the first ack inbox that is not. *)
Lemma deliver_cache (c : chan) (ms : list stan_Msg) :
  forall cached,
    fst (deliver (stanCallback lib c) cached ms) =
    if String.eqb cached "" then first_inbox ms else cached.
Proof.
  induction ms as [|m ms IH]; intro cached.
  - cbn. now destruct (String.eqb_spec cached "").
  - destruct (stanCallback_received c cached m) as [_ Hc].
    cbn [deliver]. destruct (stanCallback lib c cached m) as [cached' es].
    cbn in Hc. subst cached'. specialize (IH (resolve_ackInbox cached m)).
    destruct (deliver (stanCallback lib c) (resolve_ackInbox cached m) ms)
      as [final es'].
    cbn in IH |- *. rewrite IH. unfold resolve_ackInbox.
    destruct (String.eqb_spec cached "") as [->|Hne].
    + reflexivity.
    + now destruct (String.eqb_spec cached "").
Qed.

Lemma first_inbox_snoc (before : list stan_Msg) (m : stan_Msg) :
  first_inbox (before ++ [m]) = resolve_ackInbox (first_inbox before) m.
Proof.
  unfold resolve_ackInbox.
  induction before as [|x before IH]; cbn.
  - now destruct (String.eqb_spec (ackInbox (msg_Sub m)) "").
  - destruct (String.eqb_spec (ackInbox (msg_Sub x)) "") as [E|Hne];
      [exact IH|].
    now destruct (String.eqb_spec (ackInbox (msg_Sub x)) "").
Qed.

(** What the callback does over a run of messages, cut at one of them. *)
Lemma run_closure_split (c : chan) (before after : list stan_Msg)
    (m : stan_Msg) :
  run_closure (stan_cb c) (before ++ m :: after) =
  run_closure (stan_cb c) before
    ++ snd (stanCallback lib c (first_inbox before) m)
    ++ snd (deliver (stanCallback lib c) (first_inbox (before ++ [m])) after).
Proof.
  unfold run_closure, stan_cb. cbn [body captured].
  rewrite deliver_app. cbn [snd]. rewrite deliver_cache. cbn [String.eqb].
  rewrite first_inbox_snoc.
  destruct (stanCallback_received c (first_inbox before) m) as [_ Hc].
  cbn [deliver]. destruct (stanCallback lib c (first_inbox before) m)
    as [cached' es]. cbn in Hc. subst cached'.
  now destruct (deliver (stanCallback lib c) _ after).
Qed.

Lemma ack_for_first_inbox (before : list stan_Msg) (m : stan_Msg) :
  ack_for (first_inbox before) m = ack_of before m.
Proof. unfold ack_for, ack_of. now rewrite first_inbox_snoc. Qed.

(** The stream of a run of messages, cut at one of them. *)
Lemma stan_stream_split (c : chan) (before after : list stan_Msg)
    (m : stan_Msg) :
  stan_stream lib c (before ++ m :: after) =
  stan_stream lib c before
    ++ {| Payload := msg_Data m;
          Ack := fst (proto_Marshal_Ack lib (ack_of before m)) |}
    :: received c
         (snd (deliver (stanCallback lib c) (first_inbox (before ++ [m]))
                 after)).
Proof.
  unfold stan_stream. fold (stan_cb c).
  rewrite run_closure_split, !received_app.
  destruct (stanCallback_received c (first_inbox before) m) as [Hr _].
  rewrite Hr. unfold token_for. now rewrite ack_for_first_inbox.
Qed.

Lemma stan_stream_length (c : chan) (ms : list stan_Msg) :
  List.length (stan_stream lib c ms) = List.length ms.
Proof.
  unfold stan_stream, run_closure. cbn [body captured].
  apply deliver_stanCallback_length.
Qed.



(** C7 (amended): when the ack of a STAN message does not serialize, the
    callback writes the failure to standard error and still sends the
    message, with the buffer that the serializer handed back along with
    the error as its token: no token when that buffer is empty. The
    messages delivered before and after it are sent as well, so the
    stream has one message per transport message. *)
Theorem C7_failed_token_still_delivered (c : chan)
    (before after : list stan_Msg) (m : stan_Msg) (b : bytes) (e : error) :
  let later :=
    snd (deliver (stanCallback lib c) (first_inbox (before ++ [m])) after) in
  proto_Marshal_Ack lib (ack_of before m) = (b, Some e) ->
  run_closure (stan_cb c) (before ++ m :: after) =
    run_closure (stan_cb c) before
      ++ [Fprintf_Stderr
            ("Failed to convert ack bytes: " ++ Error e ++ nl)%string;
          chan_send c {| Payload := msg_Data m; Ack := b |}]
      ++ later /\
  stan_stream lib c (before ++ m :: after) =
    stan_stream lib c before
      ++ {| Payload := msg_Data m; Ack := b |} :: received c later /\
  List.length (stan_stream lib c (before ++ m :: after)) =
    List.length before + 1 + List.length after.
Proof.
  intros later He. split; [|split].
  - rewrite run_closure_split. fold later. f_equal. f_equal.
    unfold stanCallback. rewrite ack_for_first_inbox, He. reflexivity.
  - rewrite stan_stream_split, He. reflexivity.
  - rewrite stan_stream_length, length_app. cbn. lia.
Qed.

Lemma calls_since_one (w : world) (ev : event) (n : nat) :
  calls_since w {| trace := trace w ++ [ev]; chans := n |} = [ev].
Proof.
  unfold calls_since. cbn.
  now rewrite skipn_app, skipn_all, Nat.sub_diag.
Qed.

(** C10: when the subscribe call that [Pull] makes on a transport fails,
    [Pull] returns the error together with a handle that is not nil and
    has neither variant set, and [Close] on that handle returns the
    no-subscription-found error. *)
Theorem C10_failed_subscribe_handle (topic : string) (w : world)
    (ev : event) (e : error) :
  calls_since w (snd (Pull lib config topic w)) = [ev] ->
  subscribe_failed lib w ev e ->
  exists s w',
    Pull lib config topic w = (Some s, chans w, Some e, w') /\
    stanSub s = None /\ natsSub s = None /\
    Close lib s w' = (Some ErrNoSubscriptionFound, w').
Proof.
  intros Hev Hfail. exists {| stanSub := None; natsSub := None |}.
  destruct (Regexp.MatchString maybeConfig topic) eqn:H1.
  - rewrite Pull_config_class in Hev |- * by exact H1. cbv zeta in Hev |- *.
    cbn [snd] in Hev. rewrite calls_since_one in Hev.
    injection Hev as <-. cbn in Hfail. rewrite Hfail. eauto 6.
  - destruct (Regexp.MatchString maybeSubscription topic) eqn:H2.
    + rewrite Pull_subscription_class in Hev |- * by assumption.
      cbn [snd] in Hev. rewrite calls_since_one in Hev.
      injection Hev as <-. cbn in Hfail. rewrite Hfail. eauto 6.
    + rewrite Pull_default_class in Hev |- * by assumption.
      cbv zeta in Hev |- *. cbn [snd] in Hev.
      rewrite calls_since_one in Hev.
      injection Hev as <-. cbn in Hfail. rewrite Hfail. eauto 6.
Qed.

(** C1: the config pattern is searched for anywhere in the topic. The
    topic [subscription.config.x] begins with [subscription.] and not
    with [config.], and [Pull] opens for it a STAN subscription with
    deliver-all-available, as for a config topic; no NATS subscription
    is opened. *)
Theorem C1_Pull_config_pattern_not_anchored (w : world) :
  let topic := "subscription.config.x"%string in
  String.prefix "config." topic = false /\
  String.prefix "subscription." topic = true /\
  Pull lib config topic w =
  (match stan_Subscribe_returns lib (trace w) topic
           [stan_DeliverAllAvailable; stan_SetManualAckMode; ackWait] with
   | Ok s => (Some {| stanSub := Some s; natsSub := None |}, chans w, None)
   | Err e => (Some {| stanSub := None; natsSub := None |}, chans w, Some e)
   end,
   add_events
     {| trace := trace w; chans := S (chans w) |}
     [stanConn_Subscribe topic (stan_cb (chans w))
        [stan_DeliverAllAvailable; stan_SetManualAckMode; ackWait]]).
Proof.
  intro topic. split; [reflexivity|]. split; [reflexivity|].
  now rewrite Pull_config_class.
Qed.

End BackendFacts.

(** ** The ack token *)

(** C9: an ack token built from an ack address, a subject and a sequence
    number serializes, and decoding the bytes gives the same three values
    back. *)
Theorem C9_ack_token_roundtrip (ackAddress subject : string) (sequence : N) :
  let token :=
    {| Inbox := ackAddress; Subject := subject; Sequence := sequence |} in
  in_range token ->
  exists ackBytes,
    Wire.proto_Marshal token = Ok ackBytes /\
    Wire.proto_Unmarshal ackBytes = Ok token.
Proof.
  intros token H. exists (Wire.Marshal token). split; [reflexivity|].
  unfold Wire.proto_Unmarshal. now rewrite WireFacts.Marshal_Unmarshal.
Qed.

Lemma C9_witness :
  in_range demo_ack /\
  exists ackBytes,
    Wire.proto_Marshal demo_ack = Ok ackBytes /\
    Wire.proto_Unmarshal ackBytes = Ok demo_ack.
Proof.
  assert (H : in_range demo_ack) by (repeat split).
  split; [exact H|].
  exact (@C9_ack_token_roundtrip "_INBOX.demo" "config.alpha" 300 H).
Defined.

(** With the wire codec on both sides, the token that the STAN callback
    attaches to a message decodes, in [Acknowledge], to the ack it was
    built from. *)
Lemma token_decodes (A B : Type) (lib : Library A B) (c : chan)
    (cached : string) (m : stan_Msg) :
  proto_Marshal_Ack lib = wire_Marshal_Ack ->
  proto_Unmarshal_Ack lib = Wire.proto_Unmarshal ->
  in_range (ack_for cached m) ->
  proto_Unmarshal_Ack lib (token_for lib cached m) = Ok (ack_for cached m).
Proof.
  intros Hm Hu Hr. unfold token_for. rewrite Hm, Hu.
  unfold wire_Marshal_Ack, Wire.proto_Unmarshal. cbn [fst].
  now rewrite WireFacts.Marshal_Unmarshal.
Qed.

(** With the wire codec, a STAN message with a sequence number gets a
    token that is not empty. *)
Lemma stan_token_nonempty (A B : Type) (lib : Library A B)
    (cached : string) (m : stan_Msg) :
  proto_Marshal_Ack lib = wire_Marshal_Ack ->
  msg_Sequence m <> 0%N ->
  token_for lib cached m <> [].
Proof.
  intros Hm Hs. unfold token_for. rewrite Hm. unfold wire_Marshal_Ack.
  cbn [fst]. now apply WireFacts.Marshal_nonempty.
Qed.

(** ** The properties at concrete inputs *)

Lemma C4_witness :
  publishes_accepted accepting [validToken; garbageBytes] /\
  Acknowledge accepting [validToken; garbageBytes] w0 =
  (([garbageBytes], None),
   add_events w0
     [natsConn_Publish "_INBOX.demo"
        [x0a; x0c; x63; x6f; x6e; x66; x69; x67; x2e; x61; x6c; x70; x68; x61;
         x10; xac; x02];
      os_Stderr (unable_to_marshal
                   (libraryError "proto: cannot parse invalid wire-format data"))]).
Proof.
  assert (H : publishes_accepted accepting [validToken; garbageBytes])
    by (intros t a b h _ _ _; reflexivity).
  split; [exact H|].
  exact (proj1 (@C4_Acknowledge_decode_failures _ _ accepting
                  [validToken; garbageBytes] w0 H)).
Defined.


Lemma C7_witness :
  proto_Marshal_Ack refusing_codec (ack_of [demo_msg 1] (demo_msg 2))
  = ([], Some marshal_refused) /\
  stan_stream refusing_codec 0 ([demo_msg 1] ++ demo_msg 2 :: [demo_msg 3]) =
  [{| Payload := [x68; x69]; Ack := [] |};
   {| Payload := [x68; x69]; Ack := [] |};
   {| Payload := [x68; x69]; Ack := [] |}].
Proof.
  split; [reflexivity|].
  exact (proj1 (proj2 (@C7_failed_token_still_delivered _ _ refusing_codec 0
                         [demo_msg 1] [demo_msg 3] (demo_msg 2) []
                         marshal_refused eq_refl))).
Defined.

Lemma C10_witness :
  calls_since w0 (snd (Pull stan_down default_config "config.alpha" w0)) =
  [stanConn_Subscribe "config.alpha"
     {| captured := ""; body := stanCallback stan_down 0 |}
     [stan_DeliverAllAvailable; stan_SetManualAckMode;
      stan_AckWait 1000000000]] /\
  subscribe_failed stan_down w0
    (stanConn_Subscribe "config.alpha"
       {| captured := ""; body := stanCallback stan_down 0 |}
       [stan_DeliverAllAvailable; stan_SetManualAckMode;
        stan_AckWait 1000000000])
    connection_closed /\
  nats_Subscribe_returns stan_down (trace w0) "config.alpha"
  = Ok {| nats_id := 0 |} /\
  exists s w',
    Pull stan_down default_config "config.alpha" w0
    = (Some s, chans w0, Some connection_closed, w') /\
    stanSub s = None /\ natsSub s = None /\
    Close stan_down s w' = (Some ErrNoSubscriptionFound, w').
Proof.
  split; [reflexivity|]. split; [reflexivity|]. split; [reflexivity|].
  exact (@C10_failed_subscribe_handle _ _ stan_down default_config
           "config.alpha" w0 _ connection_closed eq_refl eq_refl).
Defined.


(** The claim that a message whose ack does not serialize is delivered
    without a token fails where the serializer hands back a buffer along
    with its error: the callback logs the error and sends the buffer. *)
Lemma C7_counterexample :
  snd (proto_Marshal_Ack complaining_codec (ack_of [] (demo_msg 1)))
  = Some marshal_refused /\
  ~ (forall rm,
        In rm (stan_stream complaining_codec 0 [demo_msg 1]) -> Ack rm = []).
Proof.
  split; [reflexivity|]. intro H.
  specialize (H _ (or_introl eq_refl)). discriminate H.
Qed.

(** The scenarios of the specification. *)

Example acknowledge_valid_and_garbage :
  failedAcks_of accepting [validToken; garbageBytes] w0 = [garbageBytes].
Proof. reflexivity. Qed.

Example subscribe_config_alpha :
  fst (Pull accepting default_config "config.alpha" w0) =
  (Some {| stanSub := Some demo_sub; natsSub := None |}, 0, None) /\
  trace (snd (Pull accepting default_config "config.alpha" w0)) =
  [stanConn_Subscribe "config.alpha"
     {| captured := ""; body := stanCallback accepting 0 |}
     [stan_DeliverAllAvailable; stan_SetManualAckMode;
      stan_AckWait 1000000000]].
Proof. split; reflexivity. Qed.

Example subscribe_subscription_beta :
  fst (Pull accepting default_config "subscription.beta" w0) =
  (Some {| stanSub := None; natsSub := Some {| nats_id := 0 |} |}, 0, None) /\
  trace (snd (Pull accepting default_config "subscription.beta" w0)) =
  [natsConn_Subscribe "subscription.beta" (natsCallback 0)].
Proof. split; reflexivity. Qed.

Example subscribe_events :
  trace (snd (Pull accepting default_config "events.x" w0)) =
  [stanConn_Subscribe "events.x"
     {| captured := ""; body := stanCallback accepting 0 |}
     [stan_SetManualAckMode; stan_AckWait 1000000000]].
Proof. reflexivity. Qed.

Example subscribe_xconfig :
  String.prefix "config." "xconfig.y" = false /\
  trace (snd (Pull accepting default_config "xconfig.y" w0)) =
  [stanConn_Subscribe "xconfig.y"
     {| captured := ""; body := stanCallback accepting 0 |}
     [stan_DeliverAllAvailable; stan_SetManualAckMode;
      stan_AckWait 1000000000]].
Proof. split; reflexivity. Qed.

Example publish_nil_pointer :
  Publish accepting "subscription.beta" (SignedSubscription_ptr _ false) w0
  = (Some (libraryError "proto: Marshal called with nil"), w0).
Proof. reflexivity. Qed.

Example publish_int :
  Publish accepting "config.alpha" (other "int") w0
  = (Some (errorString "invalid message type int"), w0).
Proof. reflexivity. Qed.

(** * Part III: further properties of the backend *)

(** ** Occurrence of a word *)

Lemma prefix_spec (w : string) :
  forall s, String.prefix w s = true <-> exists b, s = (w ++ b)%string.
Proof.
  induction w as [|c w IH]; intros [|d s]; cbn.
  - split; [intros _; now exists ""%string | reflexivity].
  - split; [intros _; now exists (String d s) | reflexivity].
  - split; [discriminate | intros [b H]; discriminate].
  - destruct (ascii_dec c d) as [->|Hn].
    + rewrite IH. split; intros [b H]; exists b; [now subst | now injection H].
    + split; [discriminate | intros [b H]; injection H as H _; congruence].
Qed.

Lemma contains_spec (w s : string) :
  contains w s = true <-> exists a b, s = (a ++ w ++ b)%string.
Proof.
  induction s as [|c s IH]; cbn [contains].
  - rewrite orb_false_r, prefix_spec. split.
    + intros [b H]. now exists ""%string, b.
    + intros (a & b & H). destruct a; [now exists b | discriminate].
  - rewrite orb_true_iff, prefix_spec, IH. split.
    + intros [[b H]|(a & b & H)].
      * now exists ""%string, b.
      * exists (String c a), b. cbn. now rewrite H.
    + intros (a & b & H). destruct a as [|x a].
      * left. now exists b.
      * right. cbn in H. injection H as _ H. now exists a, b.
Qed.

Lemma MatchString_contains (w s : string) :
  Regexp.MatchString (Regexp.Cat (Regexp.word w) (Regexp.Star Regexp.AnyNotNL)) s
  = contains w s.
Proof.
  apply Bool.eq_iff_eq_true.
  now rewrite RegexpFacts.MatchString_word_dotstar, contains_spec.
Qed.

(** ** Worlds *)

Lemma calls_since_add_events (w : world) (es : list event) :
  calls_since w (add_events w es) = es.
Proof.
  unfold calls_since, add_events. cbn.
  rewrite skipn_app, skipn_all, Nat.sub_diag. reflexivity.
Qed.

Lemma calls_since_same (w : world) : calls_since w w = [].
Proof. unfold calls_since. apply skipn_all. Qed.

Lemma add_events_add_events (w : world) (xs ys : list event) :
  add_events (add_events w xs) ys = add_events w (xs ++ ys).
Proof. unfold add_events. cbn. now rewrite app_assoc. Qed.

Lemma add_events_nil (w : world) : add_events w [] = w.
Proof. unfold add_events. rewrite app_nil_r. now destruct w. Qed.

Lemma int64_small (z : Z) :
  (- 9223372036854775808 <= z < 9223372036854775808)%Z -> int64 z = z.
Proof.
  intro H. unfold int64.
  change (2 ^ 63)%Z with 9223372036854775808%Z.
  change (2 ^ 64)%Z with 18446744073709551616%Z.
  rewrite Z.mod_small; lia.
Qed.

Section ExtraFacts.

Variables event_SignedSubscription pbconfig_Config : Type.
Variable lib : Library event_SignedSubscription pbconfig_Config.
Variable config : config_t.

(** *** Pull *)

(** X1: [Pull] routes by occurrence. A topic in which [config.] occurs
    anywhere gets a STAN subscription with deliver-all-available; any
    other topic in which [subscription.] occurs gets a NATS subscription;
    every other topic gets a STAN subscription from the default position.
    In each case exactly one subscribe call is made, the channel is the
    fresh one, and the handle holds the subscription of the transport or,
    on an error, nothing. *)
Theorem X1_Pull_routes_by_occurrence (topic : string) (w : world) :
  Pull lib config topic w =
  if contains "config." topic then
    pulled_stan lib topic (stan_DeliverAllAvailable :: durable_options config) w
  else if contains "subscription." topic then pulled_nats lib topic w
  else pulled_stan lib topic (durable_options config) w.
Proof.
  rewrite <- !MatchString_contains.
  fold maybeConfig. fold maybeSubscription.
  destruct (Regexp.MatchString maybeConfig topic) eqn:H1.
  - now rewrite Pull_config_class.
  - destruct (Regexp.MatchString maybeSubscription topic) eqn:H2.
    + now rewrite Pull_subscription_class.
    + now rewrite Pull_default_class.
Qed.

(** [Pull] does one of three things. *)
Lemma Pull_cases (topic : string) (w : world) :
  Pull lib config topic w =
    pulled_stan lib topic (stan_DeliverAllAvailable :: durable_options config) w
  \/ Pull lib config topic w = pulled_nats lib topic w
  \/ Pull lib config topic w = pulled_stan lib topic (durable_options config) w.
Proof.
  destruct (Regexp.MatchString maybeConfig topic) eqn:H1.
  - left. now rewrite Pull_config_class.
  - destruct (Regexp.MatchString maybeSubscription topic) eqn:H2.
    + right; left. now rewrite Pull_subscription_class.
    + right; right. now rewrite Pull_default_class.
Qed.

(** X2: the handle that [Pull] returns is never nil, and it tells the
    outcome: exactly one of its two subscriptions is set when the error is
    nil, and none is set when there is an error. *)
Theorem X2_Pull_handle_tells_outcome (topic : string) (w : world) :
  exists s,
    fst (fst (fst (Pull lib config topic w))) = Some s /\
    (snd (fst (Pull lib config topic w)) = None ->
     (stanSub s <> None /\ natsSub s = None) \/
     (stanSub s = None /\ natsSub s <> None)) /\
    (snd (fst (Pull lib config topic w)) <> None ->
     stanSub s = None /\ natsSub s = None).
Proof.
  destruct (Pull_cases topic w) as [E|[E|E]]; rewrite E;
    unfold pulled_stan, pulled_nats;
    [destruct (stan_Subscribe_returns lib (trace w) topic _)
    |destruct (nats_Subscribe_returns lib (trace w) topic)
    |destruct (stan_Subscribe_returns lib (trace w) topic _)];
    cbn; eexists; (split; [reflexivity|]); split; intro H;
    first [ congruence
          | split; reflexivity
          | left; split; [discriminate | reflexivity]
          | right; split; [reflexivity | discriminate] ].
Qed.

Lemma calls_since_pulled_stan (topic : string)
    (opts : list stan_SubscriptionOption) (w : world) :
  calls_since w (snd (pulled_stan lib topic opts w)) =
  [stanConn_Subscribe topic
     {| captured := ""; body := stanCallback lib (chans w) |} opts].
Proof.
  unfold calls_since, pulled_stan. cbn.
  rewrite skipn_app, skipn_all, Nat.sub_diag. reflexivity.
Qed.

Lemma calls_since_pulled_nats (topic : string) (w : world) :
  calls_since w (snd (pulled_nats lib topic w)) =
  [natsConn_Subscribe topic (natsCallback (chans w))].
Proof.
  unfold calls_since, pulled_nats. cbn.
  rewrite skipn_app, skipn_all, Nat.sub_diag. reflexivity.
Qed.

(** X3: with an ack wait of at most 9223372036 seconds in the
    configuration, every STAN subscription that [Pull] opens is on the
    topic asked for, in manual acknowledgement mode, with an ack wait of
    that many seconds in nanoseconds; the only other option it may carry
    is deliver-all-available, in front. *)
Theorem X3_Pull_durable_options (topic : string) (w : world)
    (subj : string) (cb : closure stan_Msg)
    (opts : list stan_SubscriptionOption) :
  (0 <= AckWait config <= 9223372036)%Z ->
  In (stanConn_Subscribe subj cb opts)
     (calls_since w (snd (Pull lib config topic w))) ->
  subj = topic /\
  cb = {| captured := ""; body := stanCallback lib (chans w) |} /\
  (opts = [stan_SetManualAckMode;
           stan_AckWait (AckWait config * 1000000000)] \/
   opts = [stan_DeliverAllAvailable; stan_SetManualAckMode;
           stan_AckWait (AckWait config * 1000000000)]).
Proof.
  intros Hb Hin.
  assert (Hd : durable_options config =
               [stan_SetManualAckMode;
                stan_AckWait (AckWait config * 1000000000)]).
  { unfold durable_options, time_Second.
    rewrite (@int64_small (AckWait config)) by lia.
    rewrite int64_small by lia. reflexivity. }
  destruct (Pull_cases topic w) as [E|[E|E]]; rewrite E in Hin.
  - rewrite calls_since_pulled_stan in Hin. destruct Hin as [H|[]].
    injection H as <- <- <-. rewrite Hd. auto.
  - rewrite calls_since_pulled_nats in Hin. destruct Hin as [H|[]].
    discriminate.
  - rewrite calls_since_pulled_stan in Hin. destruct Hin as [H|[]].
    injection H as <- <- <-. rewrite Hd. auto.
Qed.

Lemma Pull_chans (topic : string) (w : world) :
  Pull_chan lib config topic w = chans w /\
  chans (snd (Pull lib config topic w)) = S (chans w).
Proof.
  unfold Pull_chan.
  destruct (Pull_cases topic w) as [E|[E|E]]; rewrite E;
    unfold pulled_stan, pulled_nats;
    [destruct (stan_Subscribe_returns lib (trace w) topic _)
    |destruct (nats_Subscribe_returns lib (trace w) topic)
    |destruct (stan_Subscribe_returns lib (trace w) topic _)];
    now cbn.
Qed.

(** *** Publish *)

Ltac run_publish :=
  cbv [bind call_natsConn_Publish call_stanConn_PublishAsync history record
       ret add_events].

(** [Publish] either hands one publish to a transport or fails before it
    reaches one. *)
Lemma Publish_shape (topic : string)
    (msg : message event_SignedSubscription pbconfig_Config) (w : world) :
  (exists e, snd (Publish lib topic msg w) = add_events w [e] /\
             is_publish e = true /\
             forall subj cb, e <> natsConn_Subscribe subj cb) \/
  (Publish lib topic msg w = (fst (Publish lib topic msg w), w) /\
   fst (Publish lib topic msg w) <> None).
Proof.
  destruct msg as [p|p|b|ty]; cbn [Publish].
  - destruct (proto_Marshal_SignedSubscription lib p) as [b|e].
    + left. exists (natsConn_Publish topic b). run_publish.
      destruct (nats_Publish_returns lib (trace w) topic b); cbn;
        repeat split; discriminate.
    + right. cbn. split; [reflexivity | discriminate].
  - destruct (proto_Marshal_Config lib p) as [b|e].
    + left. exists (stanConn_PublishAsync topic b no_AckHandler). run_publish.
      cbn. destruct (snd (stan_PublishAsync_returns lib (trace w) topic b)); cbn;
        repeat split; discriminate.
    + right. cbn. split; [reflexivity | discriminate].
  - left. exists (stanConn_PublishAsync topic b no_AckHandler). run_publish.
    cbn. destruct (snd (stan_PublishAsync_returns lib (trace w) topic b)); cbn;
      repeat split; discriminate.
  - right. cbn. split; [reflexivity | discriminate].
Qed.

(** X12: [Publish] makes at most one call, and that call is a publish on
    one of the two connections: it never subscribes, closes or writes to
    standard error. When it returns nil, exactly one publish was handed to
    a transport; when no call was made, it returned an error. *)
Theorem X12_Publish_one_call_at_most (topic : string)
    (msg : message event_SignedSubscription pbconfig_Config) (w : world) :
  let calls := calls_since w (snd (Publish lib topic msg w)) in
  chans (snd (Publish lib topic msg w)) = chans w /\
  trace (snd (Publish lib topic msg w)) = trace w ++ calls /\
  List.length calls <= 1 /\
  Forall (fun e => is_publish e = true) calls /\
  (fst (Publish lib topic msg w) = None -> List.length calls = 1) /\
  (calls = [] -> fst (Publish lib topic msg w) <> None).
Proof.
  intro calls. subst calls.
  destruct (Publish_shape topic msg w) as [(e & E & He & _)|[E Hne]].
  - rewrite E, calls_since_add_events. cbn.
    repeat split; auto; try discriminate.
  - rewrite E. cbn [snd fst]. rewrite calls_since_same.
    cbn. rewrite app_nil_r. repeat split; auto. intro H.
    rewrite E in H. cbn in H. contradiction.
Qed.

(** *** Acknowledge *)

(** What [Acknowledge] leaves behind. *)
Lemma Acknowledge_events (acks : list bytes) :
  forall w, exists evs,
    world_after lib acks w = add_events w evs /\
    Forall (fun e => is_ack_event e = true) evs /\
    List.length (filter is_natsConn_Publish evs) <= List.length acks.
Proof.
  induction acks as [|ackBytes acks IH]; intro w.
  - exists []. unfold world_after. rewrite Acknowledge_nil. cbn.
    now rewrite add_events_nil.
  - unfold world_after. rewrite Acknowledge_cons. cbn [snd].
    destruct (IH (world_after lib [ackBytes] w)) as (evs & E & Hf & Hl).
    rewrite E. unfold world_after at 1. rewrite Acknowledge_single.
    destruct (proto_Unmarshal_Ack lib ackBytes) as [ack|err].
    + destruct (npb_Ack_Marshal lib _) as [b|err].
      * destruct (nats_Publish_returns lib (trace w) (Inbox ack) b); cbn [snd];
          rewrite add_events_add_events; eexists; (split; [reflexivity|]);
          split; [repeat constructor; exact Hf | cbn; lia
                 |repeat constructor; exact Hf | cbn; lia].
      * cbn [snd]. rewrite add_events_add_events. eexists.
        split; [reflexivity|]. split; [repeat constructor; exact Hf | cbn; lia].
    + cbn [snd]. rewrite add_events_add_events. eexists.
      split; [reflexivity|]. split; [repeat constructor; exact Hf | cbn; lia].
Qed.

(** X5: whatever the codec and the transport answer, the failed list is
    the batch with some tokens left out: every failed token was handed
    in, as it was, and the tokens keep their order. *)
Theorem X5_Acknowledge_failed_is_subsequence (acks : list bytes) (w : world) :
  subseq (failedAcks_of lib acks w) acks /\
  List.length (failedAcks_of lib acks w) <= List.length acks.
Proof.
  assert (H : forall w, subseq (failedAcks_of lib acks w) acks).
  { induction acks as [|ackBytes acks IH]; intro w0.
    - constructor.
    - unfold failedAcks_of at 1. rewrite Acknowledge_cons. cbn [fst].
      specialize (IH (world_after lib [ackBytes] w0)).
      unfold failedAcks_of at 1. rewrite Acknowledge_single.
      destruct (proto_Unmarshal_Ack lib ackBytes) as [ack|err].
      + destruct (npb_Ack_Marshal lib _) as [b|err].
        * destruct (nats_Publish_returns lib (trace w0) (Inbox ack) b); cbn;
            now constructor.
        * cbn. now constructor.
      + cbn. now constructor. }
  split; [apply H|].
  specialize (H w). induction H; cbn; lia.
Qed.

(** X6: [Acknowledge] only ever publishes on the NATS connection and
    writes to standard error: it makes no call on the STAN connection or
    on a subscription, opens no channel, and publishes at most one ack
    record per token. *)
Theorem X6_Acknowledge_touches_only_NATS (acks : list bytes) (w : world) :
  let calls := calls_since w (world_after lib acks w) in
  trace (world_after lib acks w) = trace w ++ calls /\
  chans (world_after lib acks w) = chans w /\
  Forall (fun e => is_ack_event e = true) calls /\
  List.length (filter is_natsConn_Publish calls) <= List.length acks.
Proof.
  intro calls. subst calls.
  destruct (Acknowledge_events acks w) as (evs & E & Hf & Hl).
  rewrite E, calls_since_add_events. now repeat split.
Qed.

(** *** Close *)

Lemma Close_chans (s : subscription) (w : world) :
  chans (snd (Close lib s w)) = chans w.
Proof. destruct s as [[ss|] [ns|]]; reflexivity. Qed.

(** *** Channels *)

Lemma run_operation_chans (o : operation event_SignedSubscription pbconfig_Config)
    (w : world) :
  chans w <= chans (run_operation lib config o w).
Proof.
  destruct o as [topic msg|topic|acks|s]; cbn [run_operation].
  - destruct (Publish_shape topic msg w) as [(e & E & _)|[E _]];
      rewrite E; cbn; lia.
  - destruct (Pull_chans topic w) as [_ E]. rewrite E. lia.
  - destruct (Acknowledge_events acks w) as (evs & E & _).
    unfold world_after in E. rewrite E. cbn. lia.
  - rewrite Close_chans. lia.
Qed.

Lemma run_operations_chans
    (os : list (operation event_SignedSubscription pbconfig_Config)) :
  forall w, chans w <= chans (run_operations lib config os w).
Proof.
  induction os as [|o os IH]; intro w; cbn; [lia|].
  pose proof (run_operation_chans o w). specialize (IH (run_operation lib config o w)).
  lia.
Qed.

(** X4: a channel is handed out once. Whatever calls of [Publish],
    [Pull], [Acknowledge] and [Close] follow a [Pull], a later [Pull]
    returns a channel different from the one the earlier [Pull]
    returned. *)
Theorem X4_Pull_channel_is_fresh (t1 t2 : string)
    (os : list (operation event_SignedSubscription pbconfig_Config))
    (w : world) :
  Pull_chan lib config t2
    (run_operations lib config os (snd (Pull lib config t1 w)))
  <> Pull_chan lib config t1 w.
Proof.
  destruct (Pull_chans t1 w) as [E1 E1'].
  destruct (Pull_chans t2
              (run_operations lib config os (snd (Pull lib config t1 w))))
    as [E2 _].
  rewrite E1, E2.
  pose proof (run_operations_chans os (snd (Pull lib config t1 w))). lia.
Qed.

(** *** Delivery *)

Lemma deliver_cached_inbox (c : chan) (inbox : string) (ms : list stan_Msg) :
  inbox <> ""%string ->
  received c (snd (deliver (stanCallback lib c) inbox ms)) =
  map (delivered lib inbox) ms.
Proof.
  intro Hne.
  assert (R : forall m, resolve_ackInbox inbox m = inbox).
  { intro m. unfold resolve_ackInbox.
    destruct (String.eqb_spec inbox ""); [contradiction | reflexivity]. }
  induction ms as [|m ms IH]; [reflexivity|].
  rewrite deliver_stanCallback_cons, R, IH. reflexivity.
Qed.

(** X8: the ack inbox is read off the subscription of the first message
    and kept. Once a message has come with a non-empty ack inbox, the
    tokens of all later messages carry that inbox, whatever subscription
    those messages name; as long as the inbox read is empty, nothing is
    kept and the next message is asked again. *)
Theorem X8_ack_inbox_resolved_once (c : chan) (m0 : stan_Msg)
    (rest : list stan_Msg) :
  stan_stream lib c (m0 :: rest) =
  delivered lib "" m0
    :: (if String.eqb (ackInbox (msg_Sub m0)) ""
        then stan_stream lib c rest
        else map (delivered lib (ackInbox (msg_Sub m0))) rest).
Proof.
  unfold stan_stream, run_closure. cbn [body captured].
  rewrite deliver_stanCallback_cons. unfold delivered at 1. f_equal.
  unfold resolve_ackInbox at 1. cbn [String.eqb].
  destruct (String.eqb_spec (ackInbox (msg_Sub m0)) "") as [E|Hne].
  - now rewrite E.
  - now apply deliver_cached_inbox.
Qed.

Lemma received_other_chan (c c' : chan) (ms : list stan_Msg) :
  c' <> c ->
  forall cached, received c' (snd (deliver (stanCallback lib c) cached ms)) = [].
Proof.
  intro Hne. apply Nat.eqb_neq in Hne.
  induction ms as [|m ms IH]; intro cached; [reflexivity|].
  cbn [deliver]. unfold stanCallback at 1.
  destruct (proto_Marshal_Ack lib (ack_for cached m)) as [b [e|]];
    destruct (deliver (stanCallback lib c) _ ms) as [final es] eqn:E;
    specialize (IH (Inbox (ack_for cached m))); rewrite E in IH;
    cbn in *; now rewrite Hne.
Qed.

(** X9: a callback writes to its own channel only. Reading any channel
    [c'] after the callback registered for the channel [c] has run gives
    the subscription's stream when [c'] is [c] and nothing otherwise, for
    a STAN and for a NATS subscription. *)
Theorem X9_callbacks_keep_to_their_channel (c c' : chan)
    (ms : list stan_Msg) (ns : list nats_Msg) :
  received c'
    (run_closure {| captured := ""; body := stanCallback lib c |} ms)
  = (if Nat.eqb c' c then stan_stream lib c ms else []) /\
  received c' (flat_map (natsCallback c) ns)
  = (if Nat.eqb c' c then nats_stream c ns else []).
Proof.
  destruct (Nat.eqb_spec c' c) as [->|Hne]; [split; reflexivity|].
  split.
  - unfold run_closure. cbn [body captured]. now apply received_other_chan.
  - apply Nat.eqb_neq in Hne.
    induction ns as [|n ns IH]; [reflexivity|]. cbn. now rewrite Hne.
Qed.

(** *** Acknowledging what was delivered *)

(** X7: the tokens of a stream acknowledge its messages. Take the
    messages that a STAN subscription with ack inbox [inbox] delivered,
    let every token serialize and decode back to the ack it was built
    from, and let the NATS connection accept the acks: then
    [Acknowledge], given the tokens of the stream, reports no failed
    token and publishes for every message, in order, the ack record of
    its subject and sequence number to [inbox]. *)
Theorem X7_Acknowledge_stream_tokens (c : chan) (inbox : string)
    (ms : list stan_Msg) (w : world) :
  Forall (fun m => ackInbox (msg_Sub m) = inbox) ms ->
  (forall m, In m ms ->
     exists b, proto_Marshal_Ack lib (ack_for inbox m) = (b, None) /\
               proto_Unmarshal_Ack lib b = Ok (ack_for inbox m)) ->
  (forall m b h, In m ms -> nats_Publish_returns lib h inbox b = None) ->
  Acknowledge lib (map Ack (stan_stream lib c ms)) w =
  (([], None), add_events w (map (ack_publish lib inbox) ms)).
Proof.
  intros Hone Hcodec Hacc.
  rewrite (stan_stream_one_subscription lib c Hone), map_map. cbn [Ack].
  revert w. induction ms as [|m ms IH]; intro w.
  - cbn. now rewrite add_events_nil.
  - assert (Hrest : forall w', Acknowledge lib (map (token_for lib inbox) ms) w'
              = (([], None), add_events w' (map (ack_publish lib inbox) ms))).
    { apply IH.
      - now inversion Hone.
      - intros m' Hin. apply Hcodec. now right.
      - intros m' b h Hin. apply (Hacc m'). now right. }
    assert (Hfirst : Acknowledge lib [token_for lib inbox m] w
              = (([], None), add_events w [ack_publish lib inbox m])).
    { destruct (Hcodec m (or_introl eq_refl)) as (b & Hm & Hu).
      assert (Hi : Inbox (ack_for inbox m) = inbox).
      { cbn. unfold resolve_ackInbox. inversion Hone; subst.
        now destruct (String.eqb (ackInbox (msg_Sub m)) ""). }
      rewrite Acknowledge_single. unfold token_for. rewrite Hm. cbn [fst].
      rewrite Hu, Hi.
      cbn [Subject Sequence ack_for]. unfold ack_publish.
      destruct (npb_Ack_Marshal lib _) as [pb|err]; [|reflexivity].
      now rewrite (Hacc m pb (trace w) (or_introl eq_refl)). }
    cbn [map]. rewrite Acknowledge_cons.
    unfold failedAcks_of, world_after. rewrite Hfirst. cbn [fst snd].
    rewrite Hrest. cbn [fst snd app].
    now rewrite add_events_add_events.
Qed.

(** *** Close after Pull *)

(** X10: closing what [Pull] opened. After a [Pull] that returned no
    error, [Close] on the handle makes exactly one call, on the very
    subscription that the transport's subscribe call returned: [Close]
    for a STAN subscription, [Unsubscribe] for a NATS one, and it returns
    the transport's answer. The handle is not cleared: a second [Close]
    makes the same call again. *)
Theorem X10_Close_after_Pull (topic : string) (w w1 : world)
    (s : subscription) (c : chan) :
  Pull lib config topic w = (Some s, c, None, w1) ->
  exists ev,
    ((exists ss opts,
         stan_Subscribe_returns lib (trace w) topic opts = Ok ss /\
         ev = stanSub_Close ss /\
         fst (Close lib s w1) = stan_Close_returns lib (trace w1) ss) \/
     (exists ns,
         nats_Subscribe_returns lib (trace w) topic = Ok ns /\
         ev = natsSub_Unsubscribe ns /\
         fst (Close lib s w1) = nats_Unsubscribe_returns lib (trace w1) ns)) /\
    snd (Close lib s w1) = add_events w1 [ev] /\
    snd (Close lib s (add_events w1 [ev])) = add_events w1 [ev; ev].
Proof.
  intro HP.
  destruct (Pull_cases topic w) as [E|[E|E]]; rewrite E in HP;
    unfold pulled_stan, pulled_nats in HP.
  - destruct (stan_Subscribe_returns lib (trace w) topic _) as [ss|e] eqn:Hs;
      [|discriminate].
    injection HP as <- <- <-. exists (stanSub_Close ss).
    split; [left; exists ss; eexists; split; [first [exact Hs | reflexivity] | split; reflexivity]|].
    split; [reflexivity|]. cbn. unfold add_events. cbn.
    now rewrite <- app_assoc.
  - destruct (nats_Subscribe_returns lib (trace w) topic) as [ns|e] eqn:Hs;
      [|discriminate].
    injection HP as <- <- <-. exists (natsSub_Unsubscribe ns).
    split; [right; exists ns; split; [first [exact Hs | reflexivity] | split; reflexivity]|].
    split; [reflexivity|]. cbn. unfold add_events. cbn.
    now rewrite <- app_assoc.
  - destruct (stan_Subscribe_returns lib (trace w) topic _) as [ss|e] eqn:Hs;
      [|discriminate].
    injection HP as <- <- <-. exists (stanSub_Close ss).
    split; [left; exists ss; eexists; split; [first [exact Hs | reflexivity] | split; reflexivity]|].
    split; [reflexivity|]. cbn. unfold add_events. cbn.
    now rewrite <- app_assoc.
Qed.

(** *** Publishing and subscribing on one topic *)

Lemma Pull_transports_by_occurrence (topic : string) (w : world) :
  Pull_transports lib config topic w =
  [if contains "config." topic then STAN
   else if contains "subscription." topic then NATS else STAN].
Proof.
  unfold Pull_transports. rewrite <- !MatchString_contains.
  fold maybeConfig. fold maybeSubscription.
  destruct (Regexp.MatchString maybeConfig topic) eqn:H1.
  - rewrite Pull_config_class by exact H1. cbv zeta.
    unfold calls_since. cbn.
    now rewrite skipn_app, skipn_all, Nat.sub_diag.
  - destruct (Regexp.MatchString maybeSubscription topic) eqn:H2.
    + rewrite Pull_subscription_class by assumption.
      unfold calls_since. cbn.
      now rewrite skipn_app, skipn_all, Nat.sub_diag.
    + rewrite Pull_default_class by assumption. cbv zeta.
      unfold calls_since. cbn.
      now rewrite skipn_app, skipn_all, Nat.sub_diag.
Qed.

Lemma Publish_transports_bytes (topic : string) (b : bytes) (w : world) :
  Publish_transports lib topic (byte_slice b) w = [STAN].
Proof.
  unfold Publish_transports. cbn [Publish]. run_publish. cbn.
  destruct (snd (stan_PublishAsync_returns lib (trace w) topic b));
    unfold calls_since; cbn;
    now rewrite skipn_app, skipn_all, Nat.sub_diag.
Qed.

Lemma Publish_transports_SignedSubscription (topic : string)
    (p : event_SignedSubscription) (b : bytes) (w : world) :
  proto_Marshal_SignedSubscription lib p = Ok b ->
  Publish_transports lib topic (SignedSubscription_ptr _ p) w = [NATS].
Proof.
  intro H. unfold Publish_transports. cbn [Publish]. rewrite H. run_publish.
  destruct (nats_Publish_returns lib (trace w) topic b);
    unfold calls_since; cbn;
    now rewrite skipn_app, skipn_all, Nat.sub_diag.
Qed.

Lemma Publish_transports_Config (topic : string)
    (p : pbconfig_Config) (b : bytes) (w : world) :
  proto_Marshal_Config lib p = Ok b ->
  Publish_transports lib topic (Config_ptr _ p) w = [STAN].
Proof.
  intro H. unfold Publish_transports. cbn [Publish]. rewrite H. run_publish.
  cbn. destruct (snd (stan_PublishAsync_returns lib (trace w) topic b));
    unfold calls_since; cbn;
    now rewrite skipn_app, skipn_all, Nat.sub_diag.
Qed.

(** X11: [Publish] and [Pull] choose the connection by different
    signs, and they agree only on part of the topics. A byte slice or a
    config document published on a topic goes to the connection on which
    [Pull] subscribes for that topic exactly when the topic is not routed
    to NATS, that is when [config.] occurs in it or [subscription.] does
    not; a signed subscription exactly when the topic is routed to NATS. *)
Theorem X11_Publish_and_Pull_agree (topic : string) (w w' : world) :
  (forall b,
      Publish_transports lib topic (byte_slice b) w
      = Pull_transports lib config topic w' <->
      contains "config." topic = true \/
      contains "subscription." topic = false) /\
  (forall p b,
      proto_Marshal_Config lib p = Ok b ->
      (Publish_transports lib topic (Config_ptr _ p) w
       = Pull_transports lib config topic w' <->
       contains "config." topic = true \/
       contains "subscription." topic = false)) /\
  (forall p b,
      proto_Marshal_SignedSubscription lib p = Ok b ->
      (Publish_transports lib topic (SignedSubscription_ptr _ p) w
       = Pull_transports lib config topic w' <->
       contains "config." topic = false /\
       contains "subscription." topic = true)).
Proof.
  split; [|split].
  - intro b. rewrite Publish_transports_bytes, Pull_transports_by_occurrence.
    destruct (contains "config." topic), (contains "subscription." topic);
      split; intro H; auto; try discriminate;
      destruct H as [H|H]; discriminate.
  - intros p b Hm.
    rewrite (Publish_transports_Config topic p w Hm),
      Pull_transports_by_occurrence.
    destruct (contains "config." topic), (contains "subscription." topic);
      split; intro H; auto; try discriminate;
      destruct H as [H|H]; discriminate.
  - intros p b Hm.
    rewrite (Publish_transports_SignedSubscription topic p w Hm),
      Pull_transports_by_occurrence.
    destruct (contains "config." topic), (contains "subscription." topic);
      split; intro H; auto; try discriminate;
      destruct H as [H1 H2]; discriminate.
Qed.

End ExtraFacts.

(** ** Startup *)

(** X13: a [Connect] that returns nil has read the environment, drawn a
    client id, dialled the streaming cluster and then the NATS server, in
    this order and without writing to standard error; both dials went to
    the URL that the configuration now holds, the cluster dial with the
    configured cluster name and the drawn id; none of the three answers
    carried an error, and the backend holds the two connections that the
    dials returned. *)
Theorem X13_Connect_success (st : Startup) (p : process) :
  fst (Connect st p) = None ->
  let p' := snd (Connect st p) in
  let cfg := config_var p' in
  let h0 := startup_trace p in
  exists clientID sc nc,
    envconfig_Process_returns st h0 "stan" (config_var p) = (cfg, None) /\
    clientID = uuid_NewV4_String st (h0 ++ [envconfig_Process "stan"]) /\
    stan_Connect_returns st (h0 ++ [envconfig_Process "stan"; uuid_NewV4])
      (ClusterName cfg) clientID (NatsURL cfg) = (sc, None) /\
    nats_Connect_returns st
      (h0 ++ [envconfig_Process "stan"; uuid_NewV4;
              stan_Connect (ClusterName cfg) clientID (NatsURL cfg)])
      (NatsURL cfg) = (nc, None) /\
    startup_trace p' =
      h0 ++ [envconfig_Process "stan"; uuid_NewV4;
             stan_Connect (ClusterName cfg) clientID (NatsURL cfg);
             nats_Connect (NatsURL cfg)] /\
    backend p' = {| stanConn := sc; natsConn := nc |}.
Proof.
  unfold Connect.
  destruct (envconfig_Process_returns st (startup_trace p) "stan" (config_var p))
    as [cfg [e1|]] eqn:He; [discriminate|].
  destruct (stan_Connect_returns st _ (ClusterName cfg) _ (NatsURL cfg))
    as [sc [e2|]] eqn:Hs; [discriminate|].
  destruct (nats_Connect_returns st _ (NatsURL cfg)) as [nc [e3|]] eqn:Hn;
    [discriminate|].
  intros _. cbn [snd config_var startup_trace backend].
  rewrite <- !app_assoc in Hs. rewrite <- !app_assoc in Hn.
  cbn [app] in Hs, Hn.
  eexists; exists sc, nc.
  split; [reflexivity|]. split; [reflexivity|].
  split; [exact Hs|]. split; [exact Hn|].
  split; [|reflexivity]. now rewrite <- !app_assoc.
Qed.

(** X14: a [Connect] that returns an error stopped at the first step that
    failed, returned that step's error and wrote one line to standard
    error, as the last thing it did, naming the step and the error. When
    the environment could not be read nothing was dialled and the backend
    is as it was; when the cluster dial failed the NATS server was not
    dialled; when the NATS dial failed the cluster connection had been
    made and stays in the backend. *)
Theorem X14_Connect_failure (st : Startup) (p : process) (e : error) :
  fst (Connect st p) = Some e ->
  let p' := snd (Connect st p) in
  let cfg := config_var p' in
  let h0 := startup_trace p in
  let clientID := uuid_NewV4_String st (h0 ++ [envconfig_Process "stan"]) in
  let dial := stan_Connect (ClusterName cfg) clientID (NatsURL cfg) in
  exists stage calls,
    startup_trace p' =
      h0 ++ calls ++ [startup_Stderr (stage ++ Error e ++ nl)%string] /\
    existsb is_startup_Stderr calls = false /\
    ((stage = "Failed to read in STAN env variables: "%string /\
      envconfig_Process_returns st h0 "stan" (config_var p) = (cfg, Some e) /\
      calls = [envconfig_Process "stan"] /\
      backend p' = backend p) \/
     (stage = "Failed to connect to STAN server: "%string /\
      calls = [envconfig_Process "stan"; uuid_NewV4; dial] /\
      stan_Connect_returns st (h0 ++ [envconfig_Process "stan"; uuid_NewV4])
        (ClusterName cfg) clientID (NatsURL cfg)
      = (stanConn (backend p'), Some e) /\
      natsConn (backend p') = natsConn (backend p)) \/
     (stage = "Failed to connect to NATS server: "%string /\
      calls = [envconfig_Process "stan"; uuid_NewV4; dial;
               nats_Connect (NatsURL cfg)] /\
      stan_Connect_returns st (h0 ++ [envconfig_Process "stan"; uuid_NewV4])
        (ClusterName cfg) clientID (NatsURL cfg)
      = (stanConn (backend p'), None) /\
      nats_Connect_returns st (h0 ++ [envconfig_Process "stan"; uuid_NewV4; dial])
        (NatsURL cfg)
      = (natsConn (backend p'), Some e))).
Proof.
  unfold Connect.
  destruct (envconfig_Process_returns st (startup_trace p) "stan" (config_var p))
    as [cfg [e1|]] eqn:He.
  - intro H. injection H as ->.
    cbn [snd config_var startup_trace backend].
    exists "Failed to read in STAN env variables: "%string,
           [envconfig_Process "stan"].
    split; [now rewrite <- !app_assoc|]. split; [reflexivity|].
    left. now repeat split.
  - destruct (stan_Connect_returns st _ (ClusterName cfg) _ (NatsURL cfg))
      as [sc [e2|]] eqn:Hs.
    + intro H. injection H as ->.
      cbn [snd config_var startup_trace backend stanConn natsConn].
      rewrite <- !app_assoc in Hs. cbn [app] in Hs.
      eexists; eexists.
      split; [|split; [|right; left; split; [reflexivity|];
                         split; [reflexivity|]; split; [exact Hs | reflexivity]]].
      * now rewrite <- !app_assoc.
      * reflexivity.
    + destruct (nats_Connect_returns st _ (NatsURL cfg)) as [nc [e3|]] eqn:Hn;
        [|discriminate].
      intro H. injection H as ->.
      cbn [snd config_var startup_trace backend stanConn natsConn].
      rewrite <- !app_assoc in Hs. rewrite <- !app_assoc in Hn.
  cbn [app] in Hs, Hn.
      eexists; eexists.
      split; [|split; [|right; right; split; [reflexivity|];
                         split; [reflexivity|]; split; [exact Hs | exact Hn]]].
      * now rewrite <- !app_assoc.
      * reflexivity.
Qed.

(** ** The further properties at concrete inputs *)

Lemma X3_witness :
  (0 <= AckWait default_config <= 9223372036)%Z /\
  In (stanConn_Subscribe "config.alpha"
        {| captured := ""; body := stanCallback accepting 0 |}
        [stan_DeliverAllAvailable; stan_SetManualAckMode;
         stan_AckWait 1000000000])
     (calls_since w0 (snd (Pull accepting default_config "config.alpha" w0))) /\
  "config.alpha"%string = "config.alpha"%string /\
  {| captured := ""; body := stanCallback accepting 0 |}
  = {| captured := ""; body := stanCallback accepting (chans w0) |} /\
  ([stan_DeliverAllAvailable; stan_SetManualAckMode; stan_AckWait 1000000000]
   = [stan_SetManualAckMode;
      stan_AckWait (AckWait default_config * 1000000000)] \/
   [stan_DeliverAllAvailable; stan_SetManualAckMode; stan_AckWait 1000000000]
   = [stan_DeliverAllAvailable; stan_SetManualAckMode;
      stan_AckWait (AckWait default_config * 1000000000)]).
Proof.
  assert (Hb : (0 <= AckWait default_config <= 9223372036)%Z)
    by (cbn; lia).
  assert (Hin : In (stanConn_Subscribe "config.alpha"
                      {| captured := ""; body := stanCallback accepting 0 |}
                      [stan_DeliverAllAvailable; stan_SetManualAckMode;
                       stan_AckWait 1000000000])
                  (calls_since w0
                     (snd (Pull accepting default_config "config.alpha" w0))))
    by (left; reflexivity).
  split; [exact Hb|]. split; [exact Hin|].
  exact (@X3_Pull_durable_options _ _ accepting default_config "config.alpha"
           w0 _ _ _ Hb Hin).
Defined.

Lemma X7_witness :
  Forall (fun m => ackInbox (msg_Sub m) = "_INBOX.demo"%string)
    [demo_msg 1; demo_msg 2] /\
  Acknowledge accepting
    (map Ack (stan_stream accepting 0 [demo_msg 1; demo_msg 2])) w0 =
  (([], None),
   add_events w0
     (map (ack_publish accepting "_INBOX.demo") [demo_msg 1; demo_msg 2])).
Proof.
  assert (H1 : Forall (fun m => ackInbox (msg_Sub m) = "_INBOX.demo"%string)
                 [demo_msg 1; demo_msg 2]) by (repeat constructor).
  split; [exact H1|].
  apply (@X7_Acknowledge_stream_tokens _ _ accepting 0 "_INBOX.demo"
           [demo_msg 1; demo_msg 2] w0 H1).
  - intros m [<-|[<-|[]]]; eexists; split; reflexivity.
  - intros m b h _. reflexivity.
Defined.

Lemma X10_witness :
  Pull accepting default_config "subscription.beta" w0 =
  (Some {| stanSub := None; natsSub := Some {| nats_id := 0 |} |}, 0, None,
   add_events {| trace := []; chans := 1 |}
     [natsConn_Subscribe "subscription.beta" (natsCallback 0)]) /\
  exists ev,
    ((exists ss opts,
         stan_Subscribe_returns accepting (trace w0) "subscription.beta" opts
         = Ok ss /\
         ev = stanSub_Close ss /\
         fst (Close accepting
                {| stanSub := None; natsSub := Some {| nats_id := 0 |} |}
                (add_events {| trace := []; chans := 1 |}
                   [natsConn_Subscribe "subscription.beta" (natsCallback 0)]))
         = stan_Close_returns accepting
             (trace (add_events {| trace := []; chans := 1 |}
                       [natsConn_Subscribe "subscription.beta" (natsCallback 0)]))
             ss) \/
     (exists ns,
         nats_Subscribe_returns accepting (trace w0) "subscription.beta" = Ok ns /\
         ev = natsSub_Unsubscribe ns /\
         fst (Close accepting
                {| stanSub := None; natsSub := Some {| nats_id := 0 |} |}
                (add_events {| trace := []; chans := 1 |}
                   [natsConn_Subscribe "subscription.beta" (natsCallback 0)]))
         = nats_Unsubscribe_returns accepting
             (trace (add_events {| trace := []; chans := 1 |}
                       [natsConn_Subscribe "subscription.beta" (natsCallback 0)]))
             ns)) /\
    snd (Close accepting
           {| stanSub := None; natsSub := Some {| nats_id := 0 |} |}
           (add_events {| trace := []; chans := 1 |}
              [natsConn_Subscribe "subscription.beta" (natsCallback 0)]))
    = add_events
        (add_events {| trace := []; chans := 1 |}
           [natsConn_Subscribe "subscription.beta" (natsCallback 0)]) [ev] /\
    snd (Close accepting
           {| stanSub := None; natsSub := Some {| nats_id := 0 |} |}
           (add_events
              (add_events {| trace := []; chans := 1 |}
                 [natsConn_Subscribe "subscription.beta" (natsCallback 0)])
              [ev]))
    = add_events
        (add_events {| trace := []; chans := 1 |}
           [natsConn_Subscribe "subscription.beta" (natsCallback 0)]) [ev; ev].
Proof.
  assert (H : Pull accepting default_config "subscription.beta" w0 =
              (Some {| stanSub := None; natsSub := Some {| nats_id := 0 |} |},
               0, None,
               add_events {| trace := []; chans := 1 |}
                 [natsConn_Subscribe "subscription.beta" (natsCallback 0)]))
    by reflexivity.
  split; [exact H|].
  exact (@X10_Close_after_Pull _ _ accepting default_config "subscription.beta"
           w0 _ _ _ H).
Defined.

Lemma X11_witness :
  proto_Marshal_SignedSubscription accepting true = Ok [x0a; x00] /\
  (Publish_transports accepting "config.alpha" (SignedSubscription_ptr _ true) w0
   = Pull_transports accepting default_config "config.alpha" w0 <->
   contains "config." "config.alpha" = false /\
   contains "subscription." "config.alpha" = true).
Proof.
  split; [reflexivity|].
  exact (proj2 (proj2 (@X11_Publish_and_Pull_agree _ _ accepting default_config
                         "config.alpha" w0 w0)) true [x0a; x00] eq_refl).
Defined.

Lemma X13_witness :
  fst (Connect all_up p0) = None /\
  startup_trace (snd (Connect all_up p0)) =
  [envconfig_Process "stan"; uuid_NewV4;
   stan_Connect "test-cluster" "6ba7b810-9dad-41d1-80b4-00c04fd430c8"
     "nats://nats:4222";
   nats_Connect "nats://nats:4222"].
Proof.
  split; [reflexivity|].
  destruct (@X13_Connect_success all_up p0 eq_refl)
    as (clientID & sc & nc & _ & Hid & _ & _ & H & _).
  subst clientID. exact H.
Defined.

Lemma X14_witness :
  fst (Connect nats_down p0) = Some no_servers /\
  exists stage calls,
    startup_trace (snd (Connect nats_down p0)) =
    startup_trace p0 ++ calls
      ++ [startup_Stderr (stage ++ Error no_servers ++ nl)%string] /\
    existsb is_startup_Stderr calls = false.
Proof.
  split; [reflexivity|].
  destruct (@X14_Connect_failure nats_down p0 no_servers eq_refl)
    as (stage & calls & H1 & H2 & _).
  exists stage, calls. split; [exact H1 | exact H2].
Defined.
